(** * ddos_filtering: NetFlow aggregation and allowlist construction

    A shallow embedding of [src/ddos_filtering/__init__.py] and the
    properties its specification states about it.

    Conventions of the embedding.
    - Python [int] is [Z].
    - A Python [float] is represented by the rational it denotes ([Q]).
      [int(x)] and the comparison of an [int] with a [float] are exact in
      CPython and are modelled exactly.  Arithmetic between floats is
      modelled by the exact rational operation; the rounding of binary64
      and the [OverflowError] of an int operand beyond the float range are
      left out there.  The bucket key of a packet time, which depends on
      the rounding, is modelled a second time in binary64 (section "The
      bucket of a packet time in binary64").
    - A [dict] is a [gmap]; [items()] yields the entries in the order of
      [map_to_list], the insertion order of the dict is not modelled.
    - A raised exception is the [Raise] case of [result]. *)

From Stdlib Require Import ZArith QArith Qround Lia Ascii String DecimalString.
From Stdlib Require Import SpecFloat.
From stdpp Require Import gmap strings list fin_maps.

Local Open Scope Z_scope.

(** ** Exceptions and the error monad *)

Inductive exn : Type :=
  | ZeroDivisionError
  | ValueError
  | KeyError
  | TypeError
  | AttributeError
  | NetmaskValueError
  | OSError
  | OverflowError
  | SystemExit (code : Z).

Inductive result (A : Type) : Type :=
  | Ok (a : A)
  | Raise (e : exn).
Arguments Ok {A} a.
Arguments Raise {A} e.

Global Instance result_ret : MRet result := λ A a, Ok a.

Global Instance result_bind : MBind result := λ A B k r,
  match r with
  | Ok a => k a
  | Raise e => Raise e
  end.

(** ** Python arithmetic *)

(** [a % b] on [int]: the remainder has the sign of the divisor. *)
Definition py_mod (a b : Z) : result Z :=
  if decide (b = 0) then Raise ZeroDivisionError else Ok (a mod b).

(** [int(x)] for a float [x]: truncation towards zero. *)
Definition py_int (x : Q) : Z := Z.quot (Qnum x) (Zpos (Qden x)).

(** [t < x] for an int [t] and a float [x]; CPython compares the exact
    values. *)
Definition int_lt_float (t : Z) (x : Q) : bool :=
  bool_decide (t * Zpos (Qden x) < Qnum x).

(** [max(l)] raises [ValueError] on an empty sequence. *)
Definition py_max (l : list Z) : result Z :=
  match l with
  | [] => Raise ValueError
  | x :: l' => Ok (foldl Z.max x l')
  end.

(** ** Addresses and networks *)

(** [IPv4Address] and [IPv6Address] hold the address as an integer. *)
Inductive ip_address : Type :=
  | IPv4Address (ip : N)
  | IPv6Address (ip : N).

Global Instance ip_address_eq_dec : EqDecision ip_address.
Proof. solve_decision. Defined.

Global Instance ip_address_countable : Countable ip_address.
Proof.
  refine (inj_countable'
    (λ a, match a with IPv4Address n => inl n | IPv6Address n => inr n end)
    (λ s, match s with inl n => IPv4Address n | inr n => IPv6Address n end) _).
  by intros [].
Defined.

Record ip_network : Type := IPNetwork {
  network_address : ip_address;
  prefixlen : Z;
}.

(** ** Configuration *)

Record Configuration : Type := {
  destination_addresses : list ip_network;
  aggregation_time : Z;
  ipv4_aggregation : Z;
  ipv6_aggregation : Z;
  param_w_train : Z;
  param_steady : Z;
  param_heavy : Z;
}.

(** [Configuration()]: the dataclass defaults. *)
Definition default_Configuration : Configuration := {|
  destination_addresses :=
    [IPNetwork (IPv4Address 0) 0; IPNetwork (IPv6Address 0) 0];
  aggregation_time := 3600;
  ipv4_aggregation := 24;
  ipv6_aggregation := 48;
  param_w_train := 24;
  param_steady := 3;
  param_heavy := 128;
|}.

(** [dict[IPv4Address | IPv6Address, dict[int, int]]] *)
Abbreviation Buckets := (gmap Z Z).
Abbreviation CountMap := (gmap ip_address (gmap Z Z)).
Abbreviation Allowlist := (gmap ip_address Z).

(** ** build_allowlist *)

(** The bucket of an integer time [t]:
    [t - (t % config.aggregation_time)].  The program writes this
    expression out for [now_bucket], [first_bucket] and [last_bucket]. *)
Definition time_bucket (config : Configuration) (t : Z) : result Z :=
  m ← py_mod t (aggregation_time config);
  Ok (t - m).

(** [now_bucket = int(now) - (int(now) % config.aggregation_time)] *)
Definition now_bucket (config : Configuration) (now : Q) : result Z :=
  time_bucket config (py_int now).

(** [earliest_time = now_bucket - config.aggregation_time * config.param_w_train] *)
Definition earliest_time (config : Configuration) (now_bucket : Z) : Z :=
  now_bucket - aggregation_time config * param_w_train config.

(** The condition of the comprehension:
    [earliest_time <= time and time < now]. *)
Definition in_window (earliest_time : Z) (now : Q) (time : Z) : bool :=
  bool_decide (earliest_time ≤ time) && int_lt_float time now.

(** The [(time, traffic)] items of [buckets] that pass the condition. *)
Definition valid_items (earliest_time : Z) (now : Q) (buckets : Buckets)
    : list (Z * Z) :=
  filter (λ it, in_window earliest_time now it.1 = true) (map_to_list buckets).

(** [valid_traffic = [traffic for time, traffic in buckets.items()
                      if earliest_time <= time and time < now]] *)
Definition valid_traffic (earliest_time : Z) (now : Q) (buckets : Buckets)
    : list Z :=
  (valid_items earliest_time now buckets).*2.

(** One iteration of [for ip, buckets in data.items()]. *)
Definition allowlist_step (config : Configuration) (earliest_time : Z) (now : Q)
    (allowlist : Allowlist) (item : ip_address * Buckets) : result Allowlist :=
  let valid_traffic := valid_traffic earliest_time now item.2 in
  if bool_decide (Z.of_nat (length valid_traffic) < param_steady config)
  then Ok allowlist
  else
    peak ← py_max valid_traffic;
    if bool_decide (peak < param_heavy config)
    then Ok allowlist
    else
      peak ← py_max valid_traffic;
      Ok (<[item.1 := peak]> allowlist).

Fixpoint for_each {A S} (body : S → A → result S) (s : S) (l : list A)
    : result S :=
  match l with
  | [] => Ok s
  | a :: l' => s' ← body s a; for_each body s' l'
  end.

(** The [defaultdict] that [build_allowlist] returns is modelled by the
    entries it holds. *)
Definition build_allowlist (data : CountMap) (config : Configuration) (now : Q)
    : result Allowlist :=
  now_bucket ← now_bucket config now;
  let earliest_time := earliest_time config now_bucket in
  for_each (allowlist_step config earliest_time now) ∅ (map_to_list data).

(** ** datetime *)

(** An aware or naive [datetime]; [tzinfo] holds the fixed UTC offset of
    the attached zone in microseconds ([Some 0] is [timezone.utc]). *)
Record datetime : Type := {
  year : Z;
  month : Z;
  day : Z;
  hour : Z;
  minute : Z;
  second : Z;
  microsecond : Z;
  tzinfo : option Z;
}.

(** [dt.replace(tzinfo=tz)]: the clock fields are kept as they are. *)
Definition replace_tzinfo (dt : datetime) (tz : option Z) : datetime := {|
  year := year dt; month := month dt; day := day dt;
  hour := hour dt; minute := minute dt; second := second dt;
  microsecond := microsecond dt;
  tzinfo := tz;
|}.

Definition timezone_utc : option Z := Some 0.

Definition is_leap (y : Z) : bool :=
  bool_decide (y mod 4 = 0) &&
  (negb (bool_decide (y mod 100 = 0)) || bool_decide (y mod 400 = 0)).

Definition days_before_year (y : Z) : Z :=
  (y - 1) * 365 + (y - 1) / 4 - (y - 1) / 100 + (y - 1) / 400.

Definition days_before_month (y m : Z) : Z :=
  nth (Z.to_nat m) [-1; 0; 31; 59; 90; 120; 151; 181; 212; 243; 273; 304; 334] 0
  + (if bool_decide (2 < m) && is_leap y then 1 else 0).

(** [date.toordinal()]: 1 is 0001-01-01. *)
Definition ymd2ord (y m d : Z) : Z :=
  days_before_year y + days_before_month y m + d.

(** Microseconds of the clock fields since 1970-01-01T00:00:00, read as
    they stand (no zone applied). *)
Definition wall_microseconds (dt : datetime) : Z :=
  (((ymd2ord (year dt) (month dt) (day dt) - 719163) * 86400
    + hour dt * 3600 + minute dt * 60 + second dt) * 1000000)
  + microsecond dt.

(** The instant an aware datetime denotes, in microseconds since the epoch:
    [(dt - _EPOCH)] subtracts the UTC offset.  Only aware datetimes reach
    this function in the program; a missing zone is read as offset 0. *)
Definition utc_microseconds (dt : datetime) : Z :=
  wall_microseconds dt - default 0 (tzinfo dt).

(** [dt.timestamp()] is [(dt - _EPOCH).total_seconds()], the quotient of
    the microseconds by 10**6.  The model keeps the exact quotient; CPython
    returns the binary64 number nearest to it. *)
Definition timestamp (dt : datetime) : Q :=
  Qmake (utc_microseconds dt) 1000000.

(** ** Flow records *)

Record NfFlow : Type := {
  in_packets : Z;
  dst_port : Z;
  first : datetime;
  last : datetime;
  src_addr : ip_address;
  dst_addr : ip_address;
}.

(** What [json.loads] yields for the values of a record that the program
    reads: [null], an integer or a string. *)
Inductive json : Type :=
  | JNull
  | JNum (n : Z)
  | JStr (s : string).

(** Functions of Python's standard library that the program calls on
    strings; they are parameters of the model. *)
Record Library : Type := {
  (** [datetime.fromisoformat] *)
  fromisoformat : string → result datetime;
  (** [IPv4Address(str)] and [IPv6Address(str)], as address integers *)
  ipv4_of_string : string → result N;
  ipv6_of_string : string → result N;
  (** [str(ip)] *)
  ip_to_string : ip_address → string;
  (** [Path(p).name] *)
  path_name : string → string;
}.

(** [d.get(key, None)] *)
Definition dict_get (d : gmap string json) (key : string) : option json :=
  match d !! key with
  | None | Some JNull => None
  | Some v => Some v
  end.

(** [d.get(key, None)] where a string is expected: [fromisoformat] raises
    [TypeError] on an argument that is not a string. *)
Definition get_str (d : gmap string json) (key : string)
    : result (option string) :=
  match dict_get d key with
  | None | Some JNull => Ok None
  | Some (JStr s) => Ok (Some s)
  | Some (JNum _) => Raise TypeError
  end.

(** [d[key]] read as an int.  The decoder prints [in_packets] and
    [dst_port] as integers; the dataclass would store any other value as it
    is, and the program would fail on it at the first arithmetic operation
    or drop the record in [stream_filter].  Here such a record is rejected
    at once. *)
Definition get_int (d : gmap string json) (key : string) : result Z :=
  match d !! key with
  | None => Raise KeyError
  | Some (JNum n) => Ok n
  | Some _ => Raise TypeError
  end.

(** [IPv4Address(address)] for a string or an int, under [optional_...]'s
    test for [None]. *)
Definition optional_ipv4_address (L : Library) (ip : option json)
    : result (option ip_address) :=
  match ip with
  | None | Some JNull => Ok None
  | Some (JStr s) => a ← ipv4_of_string L s; Ok (Some (IPv4Address a))
  | Some (JNum n) =>
      if bool_decide (0 ≤ n < 2 ^ 32) then Ok (Some (IPv4Address (Z.to_N n)))
      else Raise ValueError
  end.

Definition optional_ipv6_address (L : Library) (ip : option json)
    : result (option ip_address) :=
  match ip with
  | None | Some JNull => Ok None
  | Some (JStr s) => a ← ipv6_of_string L s; Ok (Some (IPv6Address a))
  | Some (JNum n) =>
      if bool_decide (0 ≤ n < 2 ^ 128) then Ok (Some (IPv6Address (Z.to_N n)))
      else Raise ValueError
  end.

Definition optional_datetime (L : Library) (dt : option string)
    : result (option datetime) :=
  match dt with
  | None => Ok None
  | Some s => d ← fromisoformat L s; Ok (Some (replace_tzinfo d timezone_utc))
  end.

(** [optional_datetime(d.get(key1, None))], falling back to [key2] when the
    result is [None]; [ValueError] when both are missing. *)
Definition get_timestamp (L : Library) (d : gmap string json)
    (key1 key2 : string) : result datetime :=
  s1 ← get_str d key1;
  t1 ← optional_datetime L s1;
  match t1 with
  | Some t => Ok t
  | None =>
      s2 ← get_str d key2;
      t2 ← optional_datetime L s2;
      match t2 with
      | Some t => Ok t
      | None => Raise ValueError
      end
  end.

(** [NfFlow.from_dict] *)
Definition from_dict (L : Library) (d : gmap string json) : result NfFlow :=
  in_packets ← get_int d "in_packets";
  dst_port ← get_int d "dst_port";
  first ← get_timestamp L d "first" "t_first";
  last ← get_timestamp L d "last" "t_last";
  src4_addr ← optional_ipv4_address L (dict_get d "src4_addr");
  dst4_addr ← optional_ipv4_address L (dict_get d "dst4_addr");
  src6_addr ← optional_ipv6_address L (dict_get d "src6_addr");
  dst6_addr ← optional_ipv6_address L (dict_get d "dst6_addr");
  src_addr ← match src4_addr, src6_addr with
             | Some a, _ => Ok a
             | None, Some a => Ok a
             | None, None => Raise ValueError
             end;
  dst_addr ← match dst4_addr, dst6_addr with
             | Some a, _ => Ok a
             | None, Some a => Ok a
             | None, None => Raise ValueError
             end;
  Ok {| in_packets := in_packets; dst_port := dst_port;
        first := first; last := last;
        src_addr := src_addr; dst_addr := dst_addr |}.

(** ** Networks *)

Definition max_prefixlen (a : ip_address) : Z :=
  match a with IPv4Address _ => 32 | IPv6Address _ => 128 end.

(** [_ip_int_from_prefix]: [ALL_ONES ^ (ALL_ONES >> prefixlen)]. *)
Definition ip_int_from_prefix (max_prefixlen prefixlen : Z) : N :=
  let all_ones := N.ones (Z.to_N max_prefixlen) in
  N.lxor all_ones (N.shiftr all_ones (Z.to_N prefixlen)).

Definition ip_int (a : ip_address) : N :=
  match a with IPv4Address n | IPv6Address n => n end.

Definition with_ip_int (a : ip_address) (n : N) : ip_address :=
  match a with IPv4Address _ => IPv4Address n | IPv6Address _ => IPv6Address n end.

(** [IPv4Network((addr, prefixlen), strict=False).network_address] and its
    IPv6 counterpart. *)
Definition masked_network_address (a : ip_address) (prefixlen : Z)
    : result ip_address :=
  if bool_decide (0 ≤ prefixlen ≤ max_prefixlen a)
  then Ok (with_ip_int a
             (N.land (ip_int a) (ip_int_from_prefix (max_prefixlen a) prefixlen)))
  else Raise NetmaskValueError.

(** [addr in net] *)
Definition network_contains (net : ip_network) (addr : ip_address) : bool :=
  match network_address net, addr with
  | IPv4Address n, IPv4Address a | IPv6Address n, IPv6Address a =>
      bool_decide
        (N.land a (ip_int_from_prefix (max_prefixlen addr) (prefixlen net)) = n)
  | _, _ => false
  end.

(** ** stream_filter *)

Definition stream_filter (stream : list NfFlow) (config : Configuration)
    : list NfFlow :=
  filter (λ flow,
            dst_port flow = 53 ∧
            existsb (λ net, network_contains net (dst_addr flow))
                    (destination_addresses config) = true)
         stream.

(** ** aggregate_flows *)

(** [x / n] for a float [x] and an int [n], as the exact quotient: the
    rounding of the result and the [OverflowError] of an [n] beyond the
    float range are left out ([float_div_int] below has both). *)
Definition py_float_div (x : Q) (n : Z) : result Q :=
  if decide (n = 0) then Raise ZeroDivisionError else Ok (x / inject_Z n)%Q.

(** [x % n] for a float [x] and an int [n]: the remainder has the sign of
    the divisor.  It is the exact remainder; the rounding of the result and
    the [OverflowError] of an [n] beyond the float range are left out
    ([float_rem] below has both). *)
Definition py_float_mod (x : Q) (n : Z) : result Q :=
  if decide (n = 0) then Raise ZeroDivisionError
  else Ok (x - inject_Z n * inject_Z (Qfloor (x / inject_Z n)))%Q.

(** A procedure that mutates the [data] dict it is given and either returns
    or raises; the dict is threaded through, so that what was written
    before an exception stays visible. *)
Definition Proc (A : Type) : Type := CountMap → CountMap * result A.

Global Instance proc_ret : MRet Proc := λ A a data, (data, Ok a).

Global Instance proc_bind : MBind Proc := λ A B k m data,
  match m data with
  | (data', Ok a) => k a data'
  | (data', Raise e) => (data', Raise e)
  end.

Definition lift {A} (r : result A) : Proc A := λ data, (data, r).

(** [if src not in data: data[src] = {}] *)
Definition ensure_source (src : ip_address) : Proc unit := λ data,
  match data !! src with
  | None => (<[src := ∅]> data, Ok ())
  | Some _ => (data, Ok ())
  end.

(** [data[src][bucket] = data[src].get(bucket, 0) + count] *)
Definition add_packets (src : ip_address) (bucket count : Z) : Proc unit :=
  λ data,
  match data !! src with
  | None => (data, Raise KeyError)
  | Some buckets =>
      (<[src := <[bucket := default 0 (buckets !! bucket) + count]> buckets]> data,
       Ok ())
  end.

(** The body of [for i in range(flow.in_packets)], run for the [n] indices
    from [i] on. *)
Fixpoint spread_packets (config : Configuration) (src : ip_address)
    (first time_delta_between_packets : Q) (i : Z) (n : nat) : Proc unit :=
  match n with
  | O => mret ()
  | S n' =>
      let time := (first + inject_Z i * time_delta_between_packets)%Q in
      m ← lift (py_float_mod time (aggregation_time config));
      let bucket := py_int (time - m) in
      _ ← add_packets src bucket 1;
      spread_packets config src first time_delta_between_packets (i + 1) n'
  end.

Definition source_key (config : Configuration) (src : ip_address)
    : result ip_address :=
  match src with
  | IPv4Address _ => masked_network_address src (ipv4_aggregation config)
  | IPv6Address _ => masked_network_address src (ipv6_aggregation config)
  end.

Definition aggregate_flows (config : Configuration) (flow : NfFlow)
    : Proc unit :=
  src ← lift (source_key config (src_addr flow));
  let first := timestamp (first flow) in
  let last := timestamp (last flow) in
  first_bucket ← lift (time_bucket config (py_int first));
  last_bucket ← lift (time_bucket config (py_int last));
  _ ← ensure_source src;
  if bool_decide (first_bucket = last_bucket)
  then add_packets src first_bucket (in_packets flow)
  else
    let time_total := (last - first)%Q in
    time_delta_between_packets ←
      lift (py_float_div time_total (in_packets flow - 1));
    spread_packets config src first time_delta_between_packets
      0 (Z.to_nat (in_packets flow)).

(** ** The environment of a run *)

(** What the operating system and the decoder subprocess answer. *)
Record World : Type := {
  (** whether [argparse.FileType("rt")] can open the file at this path *)
  can_open : string → bool;
  (** [Configuration.from_dict(json.load(f, cls=JsonWithComments))] for the
      file at this path *)
  load_config : string → result Configuration;
  (** the objects that [stream_read_json] decodes from the output of
      [nfdump -r file -o json] *)
  nfdump_objects : string → result (list (gmap string json));
  (** [Path.open("wt")] on this path *)
  open_output : string → result unit;
}.

(** ** nfdump_json and process_netflow_file *)

(** The generators are modelled by the lists they yield.  An exception
    raised while a generator is consumed is modelled as raised before the
    consuming loop starts; no exception is caught anywhere in the program,
    so this can change which exception a failing run ends with, not whether
    it fails. *)
Definition nfdump_json (L : Library) (W : World) (file : string)
    : result (list NfFlow) :=
  objects ← nfdump_objects W file;
  mapM (from_dict L) objects.

Fixpoint aggregate_all (config : Configuration) (flows : list NfFlow)
    : Proc unit :=
  match flows with
  | [] => mret ()
  | flow :: flows' =>
      _ ← aggregate_flows config flow; aggregate_all config flows'
  end.

(** An exception leaves [process_netflow_file] and its dict is lost. *)
Definition process_netflow_file (L : Library) (W : World) (file : string)
    (config : Configuration) : result CountMap :=
  flows ← nfdump_json L W file;
  match aggregate_all config (stream_filter flows config) ∅ with
  | (data, Ok _) => Ok data
  | (_, Raise e) => Raise e
  end.

(** ** merge_data *)

(** [for time, count in data.items():
       data_a[src_addr][time] = data_a[src_addr].get(time, 0) + count] *)
Definition merge_buckets (into data : Buckets) : Buckets :=
  map_fold (λ time count into, <[time := default 0 (into !! time) + count]> into)
           into data.

(** The loop [for src_addr, data in data_b.items()] on [data_a]. *)
Definition merge_into (data_a data_b : CountMap) : CountMap :=
  map_fold (λ src_addr data data_a,
              match data_a !! src_addr with
              | None => <[src_addr := data]> data_a
              | Some buckets =>
                  <[src_addr := merge_buckets buckets data]> data_a
              end)
           data_a data_b.

(** [merge_data] merges the larger dict into the smaller one in place and
    returns it ([data_a[src_addr] = data] stores the inner dict of [data_b]
    itself).  The model takes the two dicts by value and gives the value of
    the returned dict. *)
Definition merge_data (data_a data_b : CountMap) : CountMap :=
  if bool_decide (size data_b < size data_a)%nat
  then merge_into data_b data_a
  else merge_into data_a data_b.

(** ** write_allowlist_as_csv *)

Definition CR : ascii := "013"%char.
Definition LF : ascii := "010"%char.
Definition quotechar : ascii := "034"%char.
Definition delimiter : ascii := ","%char.

(** The [lineterminator] of the csv module's default dialect ([excel]),
    which [csv.DictWriter(out, fieldnames)] uses. *)
Definition lineterminator : string := String CR (String LF EmptyString).

(** [str(n)] for an int. *)
Definition str_int (n : Z) : string :=
  DecimalString.NilZero.string_of_int (Z.to_int n).

Fixpoint string_exists (p : ascii → bool) (s : string) : bool :=
  match s with
  | EmptyString => false
  | String c s' => p c || string_exists p s'
  end.

(** QUOTE_MINIMAL quotes a field that holds the delimiter, the quote
    character or a character of the line terminator. *)
Definition special (c : ascii) : bool :=
  bool_decide (c = delimiter) || bool_decide (c = quotechar)
  || bool_decide (c = CR) || bool_decide (c = LF).

Fixpoint double_quotes (s : string) : string :=
  match s with
  | EmptyString => EmptyString
  | String c s' =>
      if bool_decide (c = quotechar)
      then String c (String c (double_quotes s'))
      else String c (double_quotes s')
  end.

Definition csv_field (s : string) : string :=
  if string_exists special s
  then String quotechar (double_quotes s +:+ String quotechar EmptyString)
  else s.

(** [writer.writerow([a, b])] for a row of two fields. *)
Definition writerow (a b : string) : string :=
  csv_field a +:+ String delimiter (csv_field b) +:+ lineterminator.

Fixpoint string_concat (l : list string) : string :=
  match l with
  | [] => EmptyString
  | s :: l' => s +:+ string_concat l'
  end.

(** The text that [write_allowlist_as_csv] passes to [out.write]:
    [wtr.writeheader()] and then [wtr.writerows(...)] over
    [allowlist.items()].  A text stream on a POSIX system writes it
    unchanged. *)
Definition write_allowlist_as_csv (L : Library) (allowlist : Allowlist)
    : string :=
  writerow "ip" "packets"
  +:+ string_concat
        (map (λ item : ip_address * Z,
                writerow (ip_to_string L item.1) (str_int item.2))
             (map_to_list allowlist)).

(** ** The command line *)

(** The arguments as written on the command line.  An option of
    [init_argparse] with [nargs="?"] that is given without a value gets
    [None], as if it were absent; [arg_config] and [arg_output] hold the
    value when there is one. *)
Record CommandLine : Type := {
  arg_config : option string;
  arg_now : option string;
  arg_output : option string;
  arg_files : list string;
}.

(** The namespace that [parse_args] returns. *)
Record Namespace : Type := {
  config : option string;
  now : option string;
  output : option string;
  files : list string;
}.

(** [init_argparse().parse_args()].  [-c] has [type=FileType("rt")], which
    opens the file while parsing; [FILES] has [nargs="+"], so at least one
    value is required; [-n] and [-o] are optional.  A usage error ends the
    process with [SystemExit(2)]. *)
Definition parse_args (W : World) (cl : CommandLine) : result Namespace :=
  _ ← match arg_config cl with
      | Some path => if can_open W path then Ok () else Raise (SystemExit 2)
      | None => Ok ()
      end;
  match arg_files cl with
  | [] => Raise (SystemExit 2)
  | _ :: _ =>
      Ok {| config := arg_config cl; now := arg_now cl;
            output := arg_output cl; files := arg_files cl |}
  end.

(** What a run leaves behind: the text printed on standard output and the
    file written, if any. *)
Record Output : Type := {
  stdout : string;
  written : option (string * string);
}.

(** The exit status of the process: 0 after a normal return, the code of a
    [SystemExit], 1 after any other uncaught exception. *)
Definition exit_code {A} (r : result A) : Z :=
  match r with
  | Ok _ => 0
  | Raise (SystemExit code) => code
  | Raise _ => 1
  end.

(** [optional_datetime(args.now).timestamp()]: the attribute lookup on
    [None] raises [AttributeError]. *)
Definition reference_time (L : Library) (now : option string) : result Q :=
  dt ← optional_datetime L now;
  match dt with
  | Some dt => Ok (timestamp dt)
  | None => Raise AttributeError
  end.

(** [main], up to and including the call of [build_allowlist]. *)
Definition main_allowlist (L : Library) (W : World) (cl : CommandLine)
    : result (Namespace * Allowlist) :=
  args ← parse_args W cl;
  config ← match config args with
           | Some path => load_config W path
           | None => Ok default_Configuration
           end;
  results ← mapM (λ file, process_netflow_file L W file config) (files args);
  let data := foldl merge_data ∅ results in
  now ← reference_time L (now args);
  allowlist ← build_allowlist data config now;
  Ok (args, allowlist).

(** [print(f"The allowlist contains {len(allowlist)} entries.")] *)
Definition summary (allowlist : Allowlist) : string :=
  "The allowlist contains " +:+ str_int (Z.of_nat (size allowlist))
  +:+ " entries." +:+ String LF EmptyString.

(** The end of [main]: the three cases on [args.output]. *)
Definition main_output (L : Library) (W : World) (args : Namespace)
    (allowlist : Allowlist) : result Output :=
  match output args with
  | None => Ok {| stdout := summary allowlist; written := None |}
  | Some path =>
      if decide (path_name L path = "-")
      then Ok {| stdout := write_allowlist_as_csv L allowlist; written := None |}
      else
        _ ← open_output W path;
        Ok {| stdout := EmptyString;
              written := Some (path, write_allowlist_as_csv L allowlist) |}
  end.

Definition main (L : Library) (W : World) (cl : CommandLine) : result Output :=
  r ← main_allowlist L W cl;
  main_output L W r.1 r.2.

(** ** The bucket of a packet time in binary64 *)

(** The definitions above take a float to be the rational it denotes and
    the operations on floats to be exact.  Whether a bucket key of the
    packet-spreading branch is a multiple of aggregation_time depends on
    how each float operation rounds.  Here the float arithmetic of that
    branch, and in particular its key expression
    [int(time - (time % config.aggregation_time))], is modelled in IEEE 754
    binary64 over the standard library's [spec_float]: 53 bits of
    precision, round to nearest, ties to even. *)


Abbreviation float := spec_float.


















(** ** Notions used in the statements *)

(** [peak] is a maximum of the list [l]. *)
Definition is_max (peak : Z) (l : list Z) : Prop :=
  peak ∈ l ∧ ∀ x, x ∈ l → x ≤ peak.

(** What one source contributes: it is selected with value [peak] when it
    has at least [param_steady] counts in the window and their maximum
    [peak] reaches [param_heavy]. *)
Definition selected (config : Configuration) (e : Z) (now : Q)
    (buckets : Buckets) (peak : Z) : Prop :=
  param_steady config ≤ Z.of_nat (length (valid_traffic e now buckets)) ∧
  is_max peak (valid_traffic e now buckets) ∧
  param_heavy config ≤ peak.

(** The bucket-wise sum of two inner dicts. *)
Definition sum_buckets (x y : Buckets) : Buckets :=
  union_with (λ c d, Some (c + d)) x y.

(** The CountMap holding, for every source of either argument, the
    bucket-wise sum of its inner dicts. *)
Definition sum_counts (a b : CountMap) : CountMap :=
  union_with (λ x y, Some (sum_buckets x y)) a b.

(** The sum of the counts of an inner dict. *)
Definition bucket_sum (buckets : Buckets) : Z :=
  map_fold (λ _ count acc, acc + count) 0 buckets.

(** The sum of all counts of a CountMap. *)
Definition total_packets (data : CountMap) : Z :=
  map_fold (λ _ buckets acc, acc + bucket_sum buckets) 0 data.

Definition utc (y mo d h mi s : Z) : datetime := {|
  year := y; month := mo; day := d; hour := h; minute := mi; second := s;
  microsecond := 0; tzinfo := timezone_utc |}.

(** One packet, first seen 2024-01-01T00:59:59Z and last seen
    2024-01-01T01:00:01Z, from 192.0.2.7 to 203.0.113.1, port 53. *)
Definition one_packet_across_the_hour : NfFlow := {|
  in_packets := 1;
  dst_port := 53;
  first := utc 2024 1 1 0 59 59;
  last := utc 2024 1 1 1 0 1;
  src_addr := IPv4Address 3221225991;
  dst_addr := IPv4Address 3405803777;
|}.

(** Unfolds the binds of [Proc] and the matches they leave. *)
Ltac run_proc := unfold mbind, proc_bind, lift; cbv beta iota.

(** The last character of a string. *)
Fixpoint last_char (s : string) : option ascii :=
  match s with
  | EmptyString => None
  | String c EmptyString => Some c
  | String _ s' => last_char s'
  end.

(** The ASCII whitespace characters ([string.whitespace]): space, tab,
    line feed, vertical tab, form feed, carriage return. *)
Definition is_whitespace (c : ascii) : bool :=
  bool_decide (c = " "%char) || bool_decide (c = "009"%char)
  || bool_decide (c = LF) || bool_decide (c = "011"%char)
  || bool_decide (c = "012"%char) || bool_decide (c = CR).

Definition ends_in_whitespace (line : string) : bool :=
  match last_char line with
  | Some c => is_whitespace c
  | None => false
  end.

(** The lines of a text whose lines end in LF ([text.split(LF)]). *)
Fixpoint lines_lf (text : string) : list string :=
  match text with
  | EmptyString => [EmptyString]
  | String c text' =>
      if bool_decide (c = LF) then EmptyString :: lines_lf text'
      else match lines_lf text' with
           | [] => [String c EmptyString]
           | line :: lines => String c line :: lines
           end
  end.

Definition is_digit (c : ascii) : bool :=
  bool_decide (c = "0"%char) || bool_decide (c = "1"%char)
  || bool_decide (c = "2"%char) || bool_decide (c = "3"%char)
  || bool_decide (c = "4"%char) || bool_decide (c = "5"%char)
  || bool_decide (c = "6"%char) || bool_decide (c = "7"%char)
  || bool_decide (c = "8"%char) || bool_decide (c = "9"%char).

(** [str(ip)] of an [IPv4Address]: the dotted quad. *)
Definition dotted_quad (ip : N) : string :=
  let a := Z.of_N ip in
  str_int (a / 16777216) +:+ "." +:+ str_int (a / 65536 mod 256) +:+ "."
  +:+ str_int (a / 256 mod 256) +:+ "." +:+ str_int (a mod 256).

Definition naive (y mo d h mi s : Z) : datetime := {|
  year := y; month := mo; day := d; hour := h; minute := mi; second := s;
  microsecond := 0; tzinfo := None |}.

(** The answers of Python's standard library on the strings that the
    examples below use; it is consulted on no other input there. *)
Definition example_Library : Library := {|
  fromisoformat := λ s,
    if decide (s = "2024-01-01T02:00:00+02:00")
    then Ok (replace_tzinfo (naive 2024 1 1 2 0 0) (Some 7200000000))
    else if decide (s = "2024-01-01T00:00:00+00:00")
    then Ok (replace_tzinfo (naive 2024 1 1 0 0 0) (Some 0))
    else if decide (s = "2024-01-01T02:00:00")
    then Ok (naive 2024 1 1 2 0 0)
    else if decide (s = "2024-01-01T00:30:00")
    then Ok (naive 2024 1 1 0 30 0)
    else Raise ValueError;
  ipv4_of_string := λ s,
    if decide (s = "192.0.2.7") then Ok 3221225991%N
    else if decide (s = "203.0.113.1") then Ok 3405803777%N
    else Raise ValueError;
  ipv6_of_string := λ s, Raise ValueError;
  ip_to_string := λ a,
    match a with
    | IPv4Address ip => dotted_quad ip
    | IPv6Address _ => "::"
    end;
  path_name := λ path, path;
|}.

(** The record of the specification's first scenario, as the decoder
    prints it. *)
Definition scenario_record : gmap string json :=
  {[ "in_packets" := JNum 200; "dst_port" := JNum 53;
     "first" := JStr "2024-01-01T00:30:00";
     "last" := JStr "2024-01-01T00:30:00";
     "src4_addr" := JStr "192.0.2.7"; "dst4_addr" := JStr "203.0.113.1" ]}.

(** A machine on which every file can be opened and every capture file
    holds the one record above. *)
Definition example_World : World := {|
  can_open := λ _, true;
  load_config := λ _, Ok default_Configuration;
  nfdump_objects := λ _, Ok [scenario_record];
  open_output := λ _, Ok ();
|}.

Fixpoint string_forall (p : ascii → bool) (s : string) : bool :=
  match s with
  | EmptyString => true
  | String c s' => p c && string_forall p s'
  end.

(** Every bucket key of [data] is a multiple of aggregation_time. *)
Definition keys_aligned (config : Configuration) (data : CountMap) : Prop :=
  ∀ src buckets time count,
    data !! src = Some buckets → buckets !! time = Some count →
    time mod aggregation_time config = 0.


(** ** Notions used in the further properties *)

(** The prefix length that aggregate_flows applies to a source address:
    [config.ipv4_aggregation] or [config.ipv6_aggregation]. *)
Definition aggregation_prefix (config : Configuration) (a : ip_address) : Z :=
  match a with
  | IPv4Address _ => ipv4_aggregation config
  | IPv6Address _ => ipv6_aggregation config
  end.

(** Both addresses are IPv4 or both are IPv6. *)
Definition same_family (a b : ip_address) : bool :=
  match a, b with
  | IPv4Address _, IPv4Address _ | IPv6Address _, IPv6Address _ => true
  | _, _ => false
  end.

(** Every source of [data] has at least one bucket, and every count is at
    least one. *)
Definition counts_positive (data : CountMap) : Prop :=
  ∀ src buckets, data !! src = Some buckets →
    buckets ≠ ∅ ∧ ∀ time count, buckets !! time = Some count → 1 ≤ count.

(** The record of the first scenario, sent to port 443 instead of 53. *)
Definition https_record : gmap string json :=
  <["dst_port" := JNum 443]> scenario_record.

(** A machine on which every capture file holds the record above and the
    record of the first scenario. *)
Definition mixed_World : World := {|
  can_open := λ _, true;
  load_config := λ _, Ok default_Configuration;
  nfdump_objects := λ _, Ok [https_record; scenario_record];
  open_output := λ _, Ok ();
|}.

(** A machine on which every capture file holds the record to port 443
    only. *)
Definition https_World : World := {|
  can_open := λ _, true;
  load_config := λ _, Ok default_Configuration;
  nfdump_objects := λ _, Ok [https_record];
  open_output := λ _, Ok ();
|}.

(** [data[ip][time]], if both keys are present. *)
Definition count_at (data : CountMap) (ip : ip_address) (time : Z) : option Z :=
  data !! ip ≫= (.!! time).

(** Three hourly buckets before 2024-01-01T01:00:00Z with the counts 200,
    9 and 3, and a fourth one of 1970 with the count 100000. *)
Definition recent_buckets : Buckets :=
  {[ 1704070800 := 200; 1704067200 := 9; 1704063600 := 3 ]}.

Definition recent_and_old_buckets : Buckets := <[0 := 100000]> recent_buckets.

(** A machine on which the decoder gives nothing for the capture file
    named "broken", so that the reader raises, and the record of the first
    scenario for every other file. *)
Definition broken_file_World : World := {|
  can_open := λ _, true;
  load_config := λ _, Ok default_Configuration;
  nfdump_objects := λ file,
    if decide (file = "broken") then Raise ValueError else Ok [scenario_record];
  open_output := λ _, Ok ();
|}.

(** ** JsonWithComments *)

(** The configuration file is read as text; a [string] of the model holds
    its UTF-8 bytes.  The characters that [decode] looks for (line feed,
    space, slash) are single bytes that occur in no multi-byte sequence, so
    splitting the bytes is splitting the text. *)

(** [l.lstrip(" ")] *)
Fixpoint lstrip_spaces (l : string) : string :=
  match l with
  | EmptyString => EmptyString
  | String c l' => if bool_decide (c = " "%char) then lstrip_spaces l' else l
  end.

(** [l.startswith("//")] *)
Definition startswith_slashes (l : string) : bool :=
  match l with
  | String c1 (String c2 _) =>
      bool_decide (c1 = "/"%char) && bool_decide (c2 = "/"%char)
  | _ => false
  end.

(** The test of the generator expression, without its [not]. *)
Definition is_comment_line (l : string) : bool :=
  startswith_slashes (lstrip_spaces l).

(** ["\n".join(lines)] *)
Fixpoint join_lf (lines : list string) : string :=
  match lines with
  | [] => EmptyString
  | [l] => l
  | l :: lines' => l +:+ String LF (join_lf lines')
  end.

(** The text that [JsonWithComments.decode] hands to [JSONDecoder.decode]:
    ["\n".join(l for l in s.split("\n")
               if not l.lstrip(" ").startswith("//"))]. *)
Definition strip_comment_lines (s : string) : string :=
  join_lf (filter (λ l, is_comment_line l = false) (lines_lf s)).

(** [JsonWithComments.decode], over the decoder of the base class. *)
Definition JsonWithComments_decode {A} (decode : string → result A)
    (s : string) : result A :=
  decode (strip_comment_lines s).

(** ** stream_read_json *)

Abbreviation bytes := (list Byte.byte).

Global Instance byte_eq_dec : EqDecision Byte.byte.
Proof.
  intros x y. destruct (Byte.eqb x y) eqn:Heq.
  - left. by apply Byte.byte_dec_bl.
  - right. intros ->. by rewrite Byte.byte_dec_lb in Heq.
Defined.

(** [chunk.find(delim)]: the lowest index at which [delim] occurs in
    [chunk]; [None] stands for -1. *)
Fixpoint bytes_find (chunk delim : bytes) : option nat :=
  if bool_decide (delim `prefix_of` chunk) then Some O
  else match chunk with
       | [] => None
       | _ :: chunk' => S <$> bytes_find chunk' delim
       end.

(** [line.startswith(prefix)] *)
Definition bytes_startswith (line prefix : bytes) : bool :=
  bool_decide (prefix `prefix_of` line).

(** The stream [f] is the bytes that have not been read from it yet.
    [stringio.read(size)] on a buffered binary stream returns [size] bytes,
    or all that is left when the stream ends before. *)
Definition stringio_read (size : nat) (stringio : bytes) : bytes * bytes :=
  (take size stringio, drop size stringio).

(** The [while True] loop of [readuntil].  An iteration that does not
    [break] has read 256 bytes, so the loop ends on every stream of finite
    length; [fuel] bounds the number of iterations. *)
Fixpoint readuntil_loop (fuel : nat) (stringio : bytes) (datalist : list bytes)
    (delim : bytes) : option (bytes * bytes * bytes) :=
  match fuel with
  | O => None
  | S fuel' =>
      let '(chunk, stringio) := stringio_read 256 stringio in
      match bytes_find chunk delim with
      | None =>
          let datalist := datalist ++ [chunk] in
          if bool_decide (length chunk < 256)%nat
          then Some (concat datalist, chunk, stringio)
          else readuntil_loop fuel' stringio datalist delim
      | Some i =>
          let datalist := datalist ++ [take (i + length delim) chunk] in
          let chunk := drop (i + length delim) chunk in
          Some (concat datalist, chunk, stringio)
      end
  end.

(** [readuntil(stringio, chunk, delim)]: the data read, the chunk of
    unprocessed data, and the stream as it is left.  The bound on the loop
    is the length of the stream plus one. *)
Definition readuntil (stringio chunk delim : bytes)
    : option (bytes * bytes * bytes) :=
  match bytes_find chunk delim with
  | None => readuntil_loop (S (length stringio)) stringio [chunk] delim
  | Some i =>
      Some (take (i + length delim) chunk, drop (i + length delim) chunk,
            stringio)
  end.

(** How a generator ends: by [return], by an exception, or not within the
    iterations that the model was given. *)
Inductive ending : Type :=
  | Returned
  | Raised (e : exn)
  | Unfinished.

Definition byte_LF : Byte.byte := Byte.x0a.
Definition byte_comma : Byte.byte := Byte.x2c.
Definition byte_lbracket : Byte.byte := Byte.x5b.
Definition byte_rbracket : Byte.byte := Byte.x5d.
Definition byte_lbrace : Byte.byte := Byte.x7b.
Definition byte_rbrace : Byte.byte := Byte.x7d.

(** The generator [stream_read_json]: the flows it yields and how it ends.
    [json_loads] is [json.loads] on bytes, restricted to the objects that
    the decoder prints; [chunk] is the chunk of unprocessed data, [b""] at
    the start. *)
Fixpoint stream_read_json_loop (fuel : nat) (L : Library)
    (json_loads : bytes → result (gmap string json))
    (f chunk : bytes) : list NfFlow * ending :=
  match fuel with
  | O => ([], Unfinished)
  | S fuel' =>
      match readuntil f chunk [byte_LF] with
      | None => ([], Unfinished)
      | Some (line, chunk, f) =>
          if bytes_startswith line [byte_rbracket] then ([], Returned)
          else
            let buf := if bytes_startswith line [byte_lbrace]
                       then [line] else [] in
            match readuntil f chunk [byte_rbrace] with
            | None => ([], Unfinished)
            | Some (obj, chunk, f) =>
                let buf := buf ++ [obj] in
                match json_loads (concat buf) with
                | Raise e => ([], Raised e)
                | Ok d =>
                    match from_dict L d with
                    | Raise e => ([], Raised e)
                    | Ok flow =>
                        let '(flows, e) :=
                          stream_read_json_loop fuel' L json_loads f chunk in
                        (flow :: flows, e)
                    end
                end
            end
      end
  end.

Definition stream_read_json (fuel : nat) (L : Library)
    (json_loads : bytes → result (gmap string json)) (f : bytes)
    : list NfFlow * ending :=
  stream_read_json_loop fuel L json_loads f [].

(** The line holds no line feed. *)
Definition no_line_feed (l : string) : Prop :=
  string_forall (λ c, negb (bool_decide (c = LF))) l = true.

(** A line that stream_read_json reads and drops: it ends with its only
    line feed and starts with neither a closing bracket nor an opening
    brace. *)
Definition skipped_line (line : bytes) : Prop :=
  (∃ l, line = l ++ [byte_LF] ∧ byte_LF ∉ l) ∧
  bytes_startswith line [byte_rbracket] = false ∧
  bytes_startswith line [byte_lbrace] = false.

(** The text of an object that holds no other object: its only closing
    brace is its last byte. *)
Definition flat_object (obj : bytes) : Prop :=
  ∃ body, obj = body ++ [byte_rbrace] ∧ byte_rbrace ∉ body.

(** A stream in which every object comes right after a line that is
    dropped, and [closing] follows the brace of the last object. *)
Fixpoint json_array_layout (items : list (bytes * bytes)) (closing : bytes)
    : bytes :=
  match items with
  | [] => closing
  | (line, obj) :: items' => line ++ obj ++ json_array_layout items' closing
  end.

(** The JSON text of the record of the first scenario, one member per
    line, each line indented with a tab. *)
Definition quoted (s : string) : bytes :=
  Byte.x22 :: String.list_byte_of_string s ++ [Byte.x22].

Definition member (key : string) (value separator : bytes) : bytes :=
  Byte.x09 :: quoted key ++ String.list_byte_of_string " : " ++ value
  ++ separator ++ [byte_LF].

Definition scenario_object : bytes :=
  [byte_lbrace; byte_LF]
  ++ member "in_packets" (String.list_byte_of_string "200") [byte_comma]
  ++ member "dst_port" (String.list_byte_of_string "53") [byte_comma]
  ++ member "first" (quoted "2024-01-01T00:30:00") [byte_comma]
  ++ member "last" (quoted "2024-01-01T00:30:00") [byte_comma]
  ++ member "src4_addr" (quoted "192.0.2.7") [byte_comma]
  ++ member "dst4_addr" (quoted "203.0.113.1") []
  ++ [byte_rbrace].

(** An array of two such objects: an opening bracket on its own line and
    a comma and a line feed between the objects; the closing bracket is
    added where the array is used. *)
Definition two_objects : list (bytes * bytes) :=
  [ ([byte_lbracket; byte_LF], scenario_object);
    ([byte_comma; byte_LF], scenario_object) ].

(** The answers of [json.loads] on the texts that the examples below
    hand to it: the record of the first scenario on the object above, an
    exception on every other text. *)
Definition example_json_loads (text : bytes) : result (gmap string json) :=
  if decide (text = scenario_object)
  then Ok scenario_record else Raise ValueError.

(** The flow that from_dict builds from the record of the first
    scenario. *)
Definition scenario_flow : NfFlow := {|
  in_packets := 200;
  dst_port := 53;
  first := utc 2024 1 1 0 30 0;
  last := utc 2024 1 1 0 30 0;
  src_addr := IPv4Address 3221225991;
  dst_addr := IPv4Address 3405803777;
|}.

(** The record of the first scenario with another source address. *)
Definition other_record : gmap string json :=
  <["src4_addr" := JStr "203.0.113.1"]> scenario_record.

(** The default configuration with param_steady lowered to 1. *)
Definition lenient_Configuration : Configuration := {|
  destination_addresses := destination_addresses default_Configuration;
  aggregation_time := 3600;
  ipv4_aggregation := 24;
  ipv6_aggregation := 48;
  param_w_train := 24;
  param_steady := 1;
  param_heavy := 128;
|}.

(** A machine whose configuration file holds the configuration above and
    on which the capture file "a.nfcapd" holds the record of the first
    scenario and every other capture file the record above. *)
Definition two_files_World : World := {|
  can_open := λ _, true;
  load_config := λ _, Ok lenient_Configuration;
  nfdump_objects := λ file,
    if decide (file = "a.nfcapd") then Ok [scenario_record]
    else Ok [other_record];
  open_output := λ _, Ok ();
|}.

(** The record of the first scenario with an IPv6 source given beside the
    IPv4 source, and with an IPv6 destination in place of the IPv4 one.
    The IPv6 addresses are given as integers, which IPv6Address accepts. *)
Definition both_families_record : gmap string json :=
  <["src6_addr" := JNum 2]>
    (<["dst6_addr" := JNum 1]> (delete "dst4_addr" scenario_record)).
(** * Properties *)

(** ** The error monad *)

Lemma bind_Ok {A B} (r : result A) (k : A → result B) (b : B) :
  r ≫= k = Ok b ↔ ∃ a, r = Ok a ∧ k a = Ok b.
Proof.
  destruct r as [a|e]; simpl.
  - split; [eauto | intros (a' & [= ->] & ?); done].
  - split; [done | intros (a' & ? & ?); done].
Qed.

(** ** Facts about the Python arithmetic *)

Lemma py_mod_Ok a b : b ≠ 0 → py_mod a b = Ok (a mod b).
Proof. intros Hb. unfold py_mod. by rewrite decide_False. Qed.

Lemma int_lt_float_spec t x :
  int_lt_float t x = true ↔ (inject_Z t < x)%Q.
Proof.
  unfold int_lt_float, Qlt. simpl. rewrite bool_decide_eq_true.
  by rewrite Z.mul_1_r.
Qed.

(** [int(x)] is within one unit of [x], on the side of zero. *)
Lemma py_int_pred_lt x : (inject_Z (py_int x - 1) < x)%Q.
Proof.
  unfold py_int, Qlt. simpl. rewrite Z.mul_1_r.
  destruct x as [n d]. simpl.
  pose proof (Z.quot_rem' n (Zpos d)) as Hqr.
  pose proof (Z.rem_bound_abs n (Zpos d) ltac:(lia)) as Hb.
  nia.
Qed.

Lemma py_int_le x : (0 <= x)%Q → (inject_Z (py_int x) <= x)%Q.
Proof.
  destruct x as [n d]. unfold py_int, Qle. simpl. rewrite !Z.mul_1_r. intros Hn.
  pose proof (Z.quot_rem' n (Zpos d)) as Hqr.
  pose proof (Z.rem_nonneg n (Zpos d) ltac:(lia) Hn) as Hb.
  nia.
Qed.

Lemma py_int_inject_Z z : py_int (inject_Z z) = z.
Proof. unfold py_int. simpl. apply Z.quot_1_r. Qed.

(** ** The training window of build_allowlist *)

Lemma elem_of_valid_items e now (buckets : Buckets) time traffic :
  (time, traffic) ∈ valid_items e now buckets ↔
  buckets !! time = Some traffic ∧ in_window e now time = true.
Proof.
  unfold valid_items. rewrite list_elem_of_filter, elem_of_map_to_list. simpl.
  tauto.
Qed.

Lemma in_window_spec e now time :
  in_window e now time = true ↔ e ≤ time ∧ (inject_Z time < now)%Q.
Proof.
  unfold in_window.
  by rewrite andb_true_iff, bool_decide_eq_true, int_lt_float_spec.
Qed.

Lemma time_bucket_Ok config t :
  aggregation_time config ≠ 0 →
  time_bucket config t = Ok (t - t mod aggregation_time config).
Proof. intros Hagg. unfold time_bucket. by rewrite py_mod_Ok. Qed.

Lemma time_bucket_inv config t b :
  time_bucket config t = Ok b →
  aggregation_time config ≠ 0 ∧ b = t - t mod aggregation_time config.
Proof.
  unfold time_bucket, py_mod. case_decide; [done|]. by intros [= <-].
Qed.

Lemma now_bucket_Ok config now :
  aggregation_time config ≠ 0 →
  now_bucket config now =
    Ok (py_int now - py_int now mod aggregation_time config).
Proof. apply time_bucket_Ok. Qed.

(** C1, as the specification states it, fails: under the default
    configuration and the reference time 2024-01-01T02:30:00Z (1704076200,
    not a multiple of 3600), now_bucket is 1704074400 and a bucket with
    exactly that timestamp is collected into valid_traffic; with
    param_steady = 1 the source is allowlisted on that bucket alone. *)
Lemma now_bucket_collected_when_unaligned :
  now_bucket default_Configuration (1704076200 # 1) = Ok 1704074400 ∧
  valid_traffic (earliest_time default_Configuration 1704074400)
    (1704076200 # 1) {[ 1704074400 := 200 ]} = [200] ∧
  build_allowlist {[ IPv4Address 3221225984 := {[ 1704074400 := 200 ]} ]}
    {| destination_addresses := destination_addresses default_Configuration;
       aggregation_time := 3600; ipv4_aggregation := 24; ipv6_aggregation := 48;
       param_w_train := 24; param_steady := 1; param_heavy := 128 |}
    (1704076200 # 1)
  = Ok {[ IPv4Address 3221225984 := 200 ]}.
Proof. repeat split; vm_compute; reflexivity. Qed.

(** C1 (amended): the window that build_allowlist collects from is
    [now_bucket - aggregation_time * param_w_train, now), ending at the
    reference time itself.  With aggregation_time > 0 and param_w_train >= 1,
    a bucket at now_bucket - aggregation_time is always collected, and a
    bucket at now_bucket is collected exactly when now_bucket < now: it is
    excluded when now is aligned (now = now_bucket) and collected when now is
    a non-negative time that is not aligned. *)
Theorem window_ends_at_now (config : Configuration) (now : Q) (buckets : Buckets) :
  0 < aggregation_time config →
  1 ≤ param_w_train config →
  ∃ nb : Z,
    now_bucket config now = Ok nb ∧
    let e := earliest_time config nb in
    (∀ traffic, buckets !! (nb - aggregation_time config) = Some traffic →
       (nb - aggregation_time config, traffic) ∈ valid_items e now buckets) ∧
    (∀ traffic, buckets !! nb = Some traffic →
       ((nb, traffic) ∈ valid_items e now buckets ↔ (inject_Z nb < now)%Q) ∧
       ((now == inject_Z nb)%Q → (nb, traffic) ∉ valid_items e now buckets) ∧
       ((0 <= now)%Q → ¬ (now == inject_Z nb)%Q →
          (nb, traffic) ∈ valid_items e now buckets)).
Proof.
  intros Hagg Hw.
  set (agg := aggregation_time config) in *.
  exists (py_int now - py_int now mod agg).
  split; [apply now_bucket_Ok; lia|].
  set (nb := py_int now - py_int now mod agg).
  pose proof (Z.mod_pos_bound (py_int now) agg Hagg) as Hm.
  assert (He : earliest_time config nb ≤ nb - agg).
  { unfold earliest_time. fold agg. nia. }
  simpl. split.
  - intros traffic Hl. apply elem_of_valid_items. split; [done|].
    apply in_window_spec. split; [done|].
    eapply Qle_lt_trans; [|apply py_int_pred_lt].
    rewrite <- Zle_Qle. lia.
  - intros traffic Hl.
    assert (Hiff : (nb, traffic) ∈ valid_items (earliest_time config nb) now buckets
                   ↔ (inject_Z nb < now)%Q).
    { rewrite elem_of_valid_items, in_window_spec. split; [tauto|].
      intros Hlt. repeat split; [done | lia | done]. }
    split; [exact Hiff|]. split.
    + intros Heq. rewrite Hiff, Heq. apply Qlt_irrefl.
    + intros Hnn Hne. apply Hiff.
      apply Qle_lt_or_eq in Hnn as Hnn'.
      assert (Hle : (inject_Z nb <= now)%Q).
      { eapply Qle_trans; [|apply py_int_le; done].
        rewrite <- Zle_Qle. lia. }
      apply Qle_lt_or_eq in Hle as [Hlt|Heq]; [done|].
      exfalso. apply Hne. by symmetry.
Qed.

Lemma window_ends_at_now_witness :
  ∃ nb : Z,
    now_bucket default_Configuration (1704076200 # 1) = Ok nb ∧
    (∀ traffic, ({[ 1704074400 := 7; 1704070800 := 9 ]} : Buckets)
         !! (nb - 3600) = Some traffic →
       (nb - 3600, traffic) ∈ valid_items (earliest_time default_Configuration nb)
         (1704076200 # 1) {[ 1704074400 := 7; 1704070800 := 9 ]}).
Proof.
  destruct (window_ends_at_now default_Configuration (1704076200 # 1)
              {[ 1704074400 := 7; 1704070800 := 9 ]}) as (nb & Hnb & Hin & _).
  - simpl. lia.
  - simpl. lia.
  - exists nb. split; [exact Hnb | exact Hin].
Defined.

(** ** The selection rule of build_allowlist *)

Lemma foldl_max_is_max l x : is_max (foldl Z.max x l) (x :: l).
Proof.
  revert x. induction l as [|y l IH]; intros x; simpl.
  - split; [apply list_elem_of_here|].
    intros z Hz. apply list_elem_of_singleton in Hz. lia.
  - destruct (IH (Z.max x y)) as [Hin Hub]. split.
    + apply elem_of_cons in Hin as [Heq|Hin].
      * rewrite Heq. destruct (Z.max_spec x y) as [[_ ->]|[_ ->]];
          [apply list_elem_of_further, list_elem_of_here | apply list_elem_of_here].
      * by do 2 apply list_elem_of_further.
    + intros z Hz.
      assert (Hxy : Z.max x y ≤ foldl Z.max (Z.max x y) l)
        by (apply Hub, list_elem_of_here).
      apply elem_of_cons in Hz as [->|Hz]; [lia|].
      apply elem_of_cons in Hz as [->|Hz]; [lia|].
      by apply Hub, list_elem_of_further.
Qed.

Lemma py_max_Ok l : l ≠ [] → ∃ peak, py_max l = Ok peak ∧ is_max peak l.
Proof.
  destruct l as [|x l]; [done|]. intros _.
  exists (foldl Z.max x l). split; [done | apply foldl_max_is_max].
Qed.

Lemma is_max_unique p q l : is_max p l → is_max q l → p = q.
Proof. intros [Hp Hpu] [Hq Hqu]. apply Hpu in Hq. apply Hqu in Hp. lia. Qed.

(** The number of collected counts is the number of buckets of the source
    whose timestamp lies in the window. *)
Lemma length_valid_traffic e now (buckets : Buckets) :
  length (valid_traffic e now buckets) =
  size (filter (λ it : Z * Z, in_window e now it.1 = true) buckets).
Proof.
  unfold valid_traffic. rewrite length_fmap, <- length_map_to_list.
  apply Permutation_length, NoDup_Permutation.
  - apply NoDup_filter, NoDup_map_to_list.
  - apply NoDup_map_to_list.
  - intros [time traffic].
    rewrite elem_of_valid_items, elem_of_map_to_list, map_lookup_filter_Some.
    done.
Qed.

Lemma allowlist_step_spec config e now allowlist ip (buckets : Buckets) :
  1 ≤ param_steady config →
  ∃ allowlist',
    allowlist_step config e now allowlist (ip, buckets) = Ok allowlist' ∧
    ((∃ peak, selected config e now buckets peak ∧
              allowlist' = <[ip := peak]> allowlist) ∨
     ((∀ peak, ¬ selected config e now buckets peak) ∧ allowlist' = allowlist)).
Proof.
  intros Hsteady. unfold allowlist_step. simpl.
  case_bool_decide as Hlen.
  { exists allowlist. split; [done|]. right. split; [|done].
    intros peak (Hs & _). lia. }
  destruct (py_max_Ok (valid_traffic e now buckets)) as (peak & -> & Hmax).
  { intros Hnil. rewrite Hnil in Hlen. simpl in Hlen. lia. }
  simpl. case_bool_decide as Hheavy.
  - exists allowlist. split; [done|]. right. split; [|done].
    intros peak' (_ & Hmax' & Hh). rewrite (is_max_unique _ _ _ Hmax' Hmax) in Hh. lia.
  - exists (<[ip := peak]> allowlist). split; [done|]. left.
    exists peak. split; [|done]. repeat split; [lia | apply Hmax.. | lia].
Qed.

Lemma selected_unique config e now buckets p q :
  selected config e now buckets p → selected config e now buckets q → p = q.
Proof. intros (_ & Hp & _) (_ & Hq & _). by eapply is_max_unique. Qed.

Lemma for_each_allowlist_spec config e now (l : list (ip_address * Buckets)) :
  1 ≤ param_steady config →
  NoDup l.*1 →
  ∀ acc : Allowlist,
  ∃ allowlist,
    for_each (allowlist_step config e now) acc l = Ok allowlist ∧
    ∀ ip peak, allowlist !! ip = Some peak ↔
      (∃ buckets, (ip, buckets) ∈ l ∧ selected config e now buckets peak) ∨
      ((∀ buckets p, (ip, buckets) ∈ l → ¬ selected config e now buckets p) ∧
       acc !! ip = Some peak).
Proof.
  intros Hsteady. induction l as [|[ip0 b0] l IH]; intros Hnd acc; simpl.
  - exists acc. split; [done|]. intros ip peak. split.
    + intros Hl. right. split; [|done]. intros b p Hb. by apply elem_of_nil in Hb.
    + intros [(b & Hb & _)|[_ Hl]]; [by apply elem_of_nil in Hb | done].
  - apply NoDup_cons in Hnd as [Hnotin Hnd].
    assert (Hfresh : ∀ b, (ip0, b) ∉ l).
    { intros b Hb. apply Hnotin. apply list_elem_of_fmap. by exists (ip0, b). }
    destruct (allowlist_step_spec config e now acc ip0 b0 Hsteady)
      as (acc' & -> & Hstep).
    simpl. destruct (IH Hnd acc') as (al & Hal & Hspec).
    exists al. split; [done|]. intros ip peak. rewrite Hspec. clear Hspec Hal IH.
    destruct Hstep as [(p0 & Hsel0 & ->)|[Hnone ->]].
    + split.
      * intros [(b & Hb & Hsel)|[Hno Hacc']].
        -- left. exists b. split; [by apply list_elem_of_further | done].
        -- destruct (decide (ip = ip0)) as [->|Hne].
           ++ rewrite lookup_insert_eq in Hacc'. injection Hacc' as <-.
              left. exists b0. split; [apply list_elem_of_here | done].
           ++ rewrite lookup_insert_ne in Hacc' by done.
              right. split; [|done]. intros b p Hb.
              apply elem_of_cons in Hb as [[= -> ->]|Hb]; [done | by apply Hno].
      * intros [(b & Hb & Hsel)|[Hno Hacc]].
        -- apply elem_of_cons in Hb as [[= -> ->]|Hb].
           ++ right. split; [intros b p Hb; by apply Hfresh in Hb|].
              rewrite lookup_insert_eq. f_equal.
              by eapply selected_unique.
           ++ left. by exists b.
        -- destruct (decide (ip = ip0)) as [->|Hne].
           ++ exfalso. eapply Hno; [apply list_elem_of_here | exact Hsel0].
           ++ right. split.
              ** intros b p Hb. apply Hno. by apply list_elem_of_further.
              ** by rewrite lookup_insert_ne.
    + split.
      * intros [(b & Hb & Hsel)|[Hno Hacc]].
        -- left. exists b. split; [by apply list_elem_of_further | done].
        -- right. split; [|done]. intros b p Hb.
           apply elem_of_cons in Hb as [[= -> ->]|Hb]; [apply Hnone | by apply Hno].
      * intros [(b & Hb & Hsel)|[Hno Hacc]].
        -- apply elem_of_cons in Hb as [[= -> ->]|Hb].
           ++ by apply Hnone in Hsel.
           ++ left. by exists b.
        -- right. split; [|done].
           intros b p Hb. apply Hno. by apply list_elem_of_further.
Qed.

(** C4, as stated for every configuration, fails: with param_steady = 0 a
    source whose buckets all lie outside the window has an empty
    valid_traffic, the steady test passes, and max() of the empty list
    raises ValueError instead of returning a mapping. *)
Lemma build_allowlist_raises_when_steady_is_zero :
  build_allowlist {[ IPv4Address 3221225984 := {[ 0 := 5 ]} ]}
    {| destination_addresses := [];
       aggregation_time := 3600; ipv4_aggregation := 24; ipv6_aggregation := 48;
       param_w_train := 24; param_steady := 0; param_heavy := 128 |}
    (1704074400 # 1)
  = Raise ValueError.
Proof. vm_compute. reflexivity. Qed.

(** C4 (amended): for every CountMap, every configuration with
    aggregation_time <> 0 and param_steady >= 1, and every reference time,
    build_allowlist returns a mapping; it holds a source key exactly when
    the number of that source's bucket counts in the window
    [earliest_time, now) is at least param_steady and their maximum is at
    least param_heavy, and the stored value is that maximum. *)
Theorem build_allowlist_steady_and_heavy
    (data : CountMap) (config : Configuration) (now : Q) :
  aggregation_time config ≠ 0 →
  1 ≤ param_steady config →
  ∃ (nb : Z) (allowlist : Allowlist),
    now_bucket config now = Ok nb ∧
    build_allowlist data config now = Ok allowlist ∧
    ∀ ip peak, allowlist !! ip = Some peak ↔
      ∃ buckets, data !! ip = Some buckets ∧
        let e := earliest_time config nb in
        let counts := valid_traffic e now buckets in
        param_steady config ≤
          Z.of_nat (size (filter (λ it : Z * Z, in_window e now it.1 = true) buckets)) ∧
        length counts =
          size (filter (λ it : Z * Z, in_window e now it.1 = true) buckets) ∧
        is_max peak counts ∧
        param_heavy config ≤ peak.
Proof.
  intros Hagg Hsteady.
  unfold build_allowlist. rewrite now_bucket_Ok by done. simpl.
  set (nb := py_int now - py_int now mod aggregation_time config).
  destruct (for_each_allowlist_spec config (earliest_time config nb) now
              (map_to_list data) Hsteady (NoDup_fst_map_to_list data) ∅)
    as (al & Hal & Hspec).
  exists nb, al. split; [done|]. split; [done|].
  intros ip peak. rewrite Hspec. split.
  - intros [(b & Hb & Hs & Hm & Hh)|[_ Hl]]; [|by rewrite lookup_empty in Hl].
    exists b. apply elem_of_map_to_list in Hb. split; [done|].
    rewrite <- length_valid_traffic. done.
  - intros (b & Hb & Hs & _ & Hm & Hh). left. exists b.
    split; [by apply elem_of_map_to_list|].
    unfold selected. rewrite length_valid_traffic. done.
Qed.

Lemma build_allowlist_steady_and_heavy_witness :
  ∃ (nb : Z) (allowlist : Allowlist),
    now_bucket default_Configuration (1704074400 # 1) = Ok nb ∧
    build_allowlist
      {[ IPv4Address 3221225984 :=
           {[ 1704070800 := 200; 1704067200 := 9; 1704063600 := 3 ]} ]}
      default_Configuration (1704074400 # 1) = Ok allowlist.
Proof.
  destruct (build_allowlist_steady_and_heavy
              {[ IPv4Address 3221225984 :=
                   {[ 1704070800 := 200; 1704067200 := 9; 1704063600 := 3 ]} ]}
              default_Configuration (1704074400 # 1))
    as (nb & al & Hnb & Hal & _).
  - simpl. lia.
  - simpl. lia.
  - exists nb, al. split; [exact Hnb | exact Hal].
Defined.

Example build_allowlist_three_buckets :
  build_allowlist
    {[ IPv4Address 3221225984 :=
         {[ 1704070800 := 200; 1704067200 := 9; 1704063600 := 3 ]} ]}
    default_Configuration (1704074400 # 1)
  = Ok {[ IPv4Address 3221225984 := 200 ]}.
Proof. vm_compute. reflexivity. Qed.

(** ** merge_data is a commutative key-wise, bucket-wise sum *)

Lemma merge_buckets_sum (into data : Buckets) :
  merge_buckets into data = sum_buckets into data.
Proof.
  apply map_eq. intros time. unfold sum_buckets. rewrite lookup_union_with.
  unfold merge_buckets.
  apply (map_fold_weak_ind
    (λ (r : Buckets) (m : Buckets),
       r !! time = union_with (λ c d, Some (c + d)) (into !! time) (m !! time))).
  - rewrite lookup_empty. by destruct (into !! time).
  - intros i c m r Hi IH. destruct (decide (i = time)) as [->|Hne].
    + rewrite !lookup_insert_eq. rewrite IH, Hi.
      destruct (into !! time); simpl; f_equal; lia.
    + by rewrite !lookup_insert_ne.
Qed.

Lemma merge_into_sum (data_a data_b : CountMap) :
  merge_into data_a data_b = sum_counts data_a data_b.
Proof.
  apply map_eq. intros src. unfold sum_counts. rewrite lookup_union_with.
  unfold merge_into.
  apply (map_fold_weak_ind
    (λ (r : CountMap) (m : CountMap),
       r !! src = union_with (λ x y, Some (sum_buckets x y))
                    (data_a !! src) (m !! src))).
  - rewrite lookup_empty. by destruct (data_a !! src).
  - intros i d m r Hi IH. destruct (decide (i = src)) as [->|Hne].
    + rewrite lookup_insert_eq. rewrite Hi in IH.
      destruct (r !! src) as [b|] eqn:Hr.
      * rewrite lookup_insert_eq, merge_buckets_sum.
        destruct (data_a !! src); simpl in *; congruence.
      * rewrite lookup_insert_eq.
        destruct (data_a !! src); simpl in *; congruence.
    + rewrite lookup_insert_ne by done.
      destruct (r !! i); by rewrite lookup_insert_ne.
Qed.

Lemma sum_buckets_comm (x y : Buckets) : sum_buckets x y = sum_buckets y x.
Proof.
  apply map_eq. intros time. unfold sum_buckets. rewrite !lookup_union_with.
  destruct (x !! time), (y !! time); simpl; f_equal; lia.
Qed.

Lemma sum_counts_comm (a b : CountMap) : sum_counts a b = sum_counts b a.
Proof.
  apply map_eq. intros src. unfold sum_counts. rewrite !lookup_union_with.
  destruct (a !! src), (b !! src); simpl; f_equal. apply sum_buckets_comm.
Qed.

Lemma merge_data_sum (data_a data_b : CountMap) :
  merge_data data_a data_b = sum_counts data_a data_b.
Proof.
  unfold merge_data. case_bool_decide.
  - rewrite merge_into_sum. apply sum_counts_comm.
  - apply merge_into_sum.
Qed.

(** C6: merge_data(A, B) and merge_data(B, A) are the same CountMap: the
    sources are those of A or B, and a source's buckets are those it has in
    A or B, a bucket present in both carrying the sum of the two counts. *)
Theorem merge_data_comm (A B : CountMap) :
  merge_data A B = merge_data B A ∧
  ∀ src,
    merge_data A B !! src =
      match A !! src, B !! src with
      | Some x, Some y => Some (sum_buckets x y)
      | Some x, None => Some x
      | None, Some y => Some y
      | None, None => None
      end ∧
    ∀ x y time,
      sum_buckets x y !! time =
        match x !! time, y !! time with
        | Some c, Some d => Some (c + d)
        | Some c, None => Some c
        | None, Some d => Some d
        | None, None => None
        end.
Proof.
  split.
  - rewrite !merge_data_sum. apply sum_counts_comm.
  - intros src. split.
    + rewrite merge_data_sum. unfold sum_counts. rewrite lookup_union_with.
      by destruct (A !! src), (B !! src).
    + intros x y time. unfold sum_buckets. rewrite lookup_union_with.
      by destruct (x !! time), (y !! time).
Qed.

Example merge_data_example :
  merge_data {[ IPv4Address 1 := {[ 0 := 5; 3600 := 1 ]} ]}
             {[ IPv4Address 1 := {[ 0 := 2 ]}; IPv4Address 2 := {[ 7200 := 1 ]} ]}
  = {[ IPv4Address 1 := {[ 0 := 7; 3600 := 1 ]}; IPv4Address 2 := {[ 7200 := 1 ]} ]}.
Proof. vm_compute. reflexivity. Qed.

(** ** Packet totals *)

Lemma bucket_sum_empty : bucket_sum ∅ = 0.
Proof. done. Qed.

Lemma bucket_sum_insert_fresh (buckets : Buckets) time count :
  buckets !! time = None →
  bucket_sum (<[time := count]> buckets) = bucket_sum buckets + count.
Proof.
  intros Hf. unfold bucket_sum. rewrite map_fold_insert_L; [done | | done].
  intros. lia.
Qed.

Lemma bucket_sum_delete (buckets : Buckets) time count :
  buckets !! time = Some count →
  bucket_sum buckets = bucket_sum (delete time buckets) + count.
Proof.
  intros Hl. unfold bucket_sum.
  rewrite (map_fold_delete_L _ _ time count buckets); [done | | done].
  intros. lia.
Qed.

Lemma bucket_sum_add (buckets : Buckets) time count :
  bucket_sum (<[time := default 0 (buckets !! time) + count]> buckets)
  = bucket_sum buckets + count.
Proof.
  destruct (buckets !! time) as [c|] eqn:Hl; simpl.
  - rewrite <- insert_delete_eq.
    rewrite bucket_sum_insert_fresh by apply lookup_delete_eq.
    rewrite (bucket_sum_delete buckets time c Hl). lia.
  - by rewrite bucket_sum_insert_fresh.
Qed.

Lemma total_packets_insert_fresh (data : CountMap) src buckets :
  data !! src = None →
  total_packets (<[src := buckets]> data) = total_packets data + bucket_sum buckets.
Proof.
  intros Hf. unfold total_packets. rewrite map_fold_insert_L; [done | | done].
  intros. lia.
Qed.

Lemma total_packets_delete (data : CountMap) src buckets :
  data !! src = Some buckets →
  total_packets data = total_packets (delete src data) + bucket_sum buckets.
Proof.
  intros Hl. unfold total_packets.
  rewrite (map_fold_delete_L _ _ src buckets data); [done | | done].
  intros. lia.
Qed.

Lemma total_packets_insert (data : CountMap) src old new :
  data !! src = Some old →
  total_packets (<[src := new]> data)
  = total_packets data - bucket_sum old + bucket_sum new.
Proof.
  intros Hl. rewrite <- insert_delete_eq.
  rewrite total_packets_insert_fresh by apply lookup_delete_eq.
  rewrite (total_packets_delete data src old Hl). lia.
Qed.

(** ** What aggregate_flows adds to the CountMap *)

Lemma ensure_source_spec src (data : CountMap) :
  ∃ data', ensure_source src data = (data', Ok ()) ∧
           is_Some (data' !! src) ∧
           total_packets data' = total_packets data.
Proof.
  unfold ensure_source. destruct (data !! src) as [b|] eqn:Hl.
  - exists data. by rewrite Hl.
  - exists (<[src := ∅]> data). rewrite lookup_insert_eq.
    rewrite total_packets_insert_fresh, bucket_sum_empty by done.
    split; [done|]. split; [by eexists | lia].
Qed.

Lemma add_packets_spec src bucket count (data : CountMap) :
  is_Some (data !! src) →
  ∃ data', add_packets src bucket count data = (data', Ok ()) ∧
           is_Some (data' !! src) ∧
           total_packets data' = total_packets data + count.
Proof.
  intros [b Hl]. unfold add_packets. rewrite Hl.
  eexists. split; [done|]. rewrite lookup_insert_eq. split; [by eexists|].
  rewrite (total_packets_insert _ _ b) by done.
  rewrite bucket_sum_add. lia.
Qed.

Lemma spread_packets_spec config src first delta n :
  aggregation_time config ≠ 0 →
  ∀ i (data : CountMap),
  is_Some (data !! src) →
  ∃ data', spread_packets config src first delta i n data = (data', Ok ()) ∧
           is_Some (data' !! src) ∧
           total_packets data' = total_packets data + Z.of_nat n.
Proof.
  intros Hagg. induction n as [|n IH]; intros i data Hsrc.
  - exists data. split; [done|]. split; [done|]. simpl. lia.
  - cbn [spread_packets]. unfold py_float_mod. rewrite decide_False by done.
    unfold mbind, proc_bind, lift.
    set (bucket := py_int _).
    destruct (add_packets_spec src bucket 1 data Hsrc) as (d1 & -> & Hs1 & Ht1).
    destruct (IH (i + 1) d1 Hs1) as (d2 & Hd2 & Hs2 & Ht2).
    exists d2. split; [exact Hd2|]. split; [done|]. lia.
Qed.

(** Whenever the division of the packet-spreading branch is not by zero,
    aggregate_flows returns and has added exactly [in_packets] to the counts
    of the CountMap. *)
Lemma aggregate_flows_adds_in_packets config flow (data : CountMap)
    src first_bucket last_bucket :
  source_key config (src_addr flow) = Ok src →
  time_bucket config (py_int (timestamp (first flow))) = Ok first_bucket →
  time_bucket config (py_int (timestamp (last flow))) = Ok last_bucket →
  0 ≤ in_packets flow →
  first_bucket = last_bucket ∨ in_packets flow ≠ 1 →
  ∃ data', aggregate_flows config flow data = (data', Ok ()) ∧
           total_packets data' = total_packets data + in_packets flow.
Proof.
  intros Hsrc Hfb Hlb Hn Hbranch.
  destruct (time_bucket_inv _ _ _ Hfb) as [Hagg _].
  unfold aggregate_flows. cbv zeta.
  set (tf := timestamp (first flow)) in *. set (tl := timestamp (last flow)) in *.
  clearbody tf tl.
  rewrite Hsrc, Hfb, Hlb. run_proc.
  destruct (ensure_source_spec src data) as (d1 & -> & Hs1 & Ht1). run_proc.
  case_bool_decide as Hsame.
  - destruct (add_packets_spec src first_bucket (in_packets flow) d1 Hs1)
      as (d2 & -> & _ & Ht2).
    exists d2. split; [reflexivity | lia].
  - destruct Hbranch as [?|Hne]; [done|].
    unfold py_float_div. rewrite decide_False by lia. run_proc.
    destruct (spread_packets_spec config src tf
                ((tl - tf) / inject_Z (in_packets flow - 1))%Q
                (Z.to_nat (in_packets flow)) Hagg 0 d1 Hs1)
      as (d2 & -> & _ & Ht2).
    exists d2. split; [reflexivity | lia].
Qed.

(** When first and last fall into one bucket, aggregate_flows returns, and
    the CountMap differs only in that bucket of the source, which has grown
    by [in_packets]; no division takes place. *)
Lemma aggregate_flows_single_bucket config flow (data : CountMap) src bucket :
  source_key config (src_addr flow) = Ok src →
  time_bucket config (py_int (timestamp (first flow))) = Ok bucket →
  time_bucket config (py_int (timestamp (last flow))) = Ok bucket →
  let buckets := default ∅ (data !! src) in
  aggregate_flows config flow data
  = (<[src := <[bucket := default 0 (buckets !! bucket) + in_packets flow]> buckets]>
       data,
     Ok ()).
Proof.
  intros Hsrc Hfb Hlb. unfold aggregate_flows. cbv zeta.
  set (tf := timestamp (first flow)) in *. set (tl := timestamp (last flow)) in *.
  clearbody tf tl.
  rewrite Hsrc, Hfb, Hlb. run_proc.
  rewrite bool_decide_eq_true_2 by done.
  unfold ensure_source, add_packets.
  destruct (data !! src) as [b|] eqn:Hl; cbn [default from_option id].
  - by rewrite Hl.
  - rewrite lookup_insert_eq. by rewrite insert_insert_eq.
Qed.

(** A flow of one packet whose first and last timestamps fall into different
    buckets reaches the division by [in_packets - 1]: aggregate_flows raises
    ZeroDivisionError, and no count has been added. *)
Lemma aggregate_flows_one_packet_across_buckets config flow (data : CountMap)
    src first_bucket last_bucket :
  source_key config (src_addr flow) = Ok src →
  time_bucket config (py_int (timestamp (first flow))) = Ok first_bucket →
  time_bucket config (py_int (timestamp (last flow))) = Ok last_bucket →
  in_packets flow = 1 →
  first_bucket ≠ last_bucket →
  ∃ data', aggregate_flows config flow data = (data', Raise ZeroDivisionError) ∧
           total_packets data' = total_packets data.
Proof.
  intros Hsrc Hfb Hlb Hn Hdiff.
  unfold aggregate_flows. cbv zeta.
  set (tf := timestamp (first flow)) in *. set (tl := timestamp (last flow)) in *.
  clearbody tf tl.
  rewrite Hsrc, Hfb, Hlb. run_proc.
  destruct (ensure_source_spec src data) as (d1 & -> & Hs1 & Ht1). run_proc.
  case_bool_decide as Hsame; [done|].
  unfold py_float_div. rewrite decide_True by lia. run_proc.
  exists d1. split; [reflexivity | lia].
Qed.

(** C3 (the code departs from the claim): the flow above has
    in_packets = 1 and last >= first, yet its two timestamps lie in the
    buckets 1704067200 and 1704070800, so aggregate_flows takes the
    packet-spreading branch and the division by in_packets - 1 = 0 raises
    ZeroDivisionError. *)
Theorem one_packet_flow_divides_by_zero :
  in_packets one_packet_across_the_hour = 1 ∧
  (timestamp (first one_packet_across_the_hour)
     <= timestamp (last one_packet_across_the_hour))%Q ∧
  time_bucket default_Configuration
    (py_int (timestamp (first one_packet_across_the_hour))) = Ok 1704067200 ∧
  time_bucket default_Configuration
    (py_int (timestamp (last one_packet_across_the_hour))) = Ok 1704070800 ∧
  aggregate_flows default_Configuration one_packet_across_the_hour ∅
    = ({[ IPv4Address 3221225984 := ∅ ]}, Raise ZeroDivisionError).
Proof. repeat split; vm_compute; congruence. Qed.

(** C2 (the code departs from the claim): for the same flow, whatever the
    CountMap, aggregate_flows raises before any bucket is incremented: the
    counts of the CountMap sum to what they did before, not to one more. *)
Theorem one_packet_flow_adds_nothing (data : CountMap) :
  ∃ data',
    aggregate_flows default_Configuration one_packet_across_the_hour data
      = (data', Raise ZeroDivisionError) ∧
    total_packets data' = total_packets data ∧
    total_packets data' ≠ total_packets data + in_packets one_packet_across_the_hour.
Proof.
  destruct (aggregate_flows_one_packet_across_buckets default_Configuration
              one_packet_across_the_hour data (IPv4Address 3221225984)
              1704067200 1704070800)
    as (data' & Hrun & Htotal);
    [vm_compute; reflexivity.. | reflexivity | lia | ].
  exists data'. split; [exact Hrun|]. split; [exact Htotal|].
  change (in_packets one_packet_across_the_hour) with 1. lia.
Qed.

(** The specification's second scenario: two packets across the hour give
    each of the two buckets one packet. *)
Example two_packets_across_the_hour :
  aggregate_flows default_Configuration
    {| in_packets := 2; dst_port := 53;
       first := utc 2024 1 1 0 59 59; last := utc 2024 1 1 1 0 1;
       src_addr := IPv4Address 3221225991; dst_addr := IPv4Address 3405803777 |}
    ∅
  = ({[ IPv4Address 3221225984 := {[ 1704067200 := 1; 1704070800 := 1 ]} ]},
     Ok ()).
Proof. vm_compute. reflexivity. Qed.

(** The specification's first scenario. *)
Example one_flow_one_bucket :
  aggregate_flows default_Configuration
    {| in_packets := 200; dst_port := 53;
       first := utc 2024 1 1 0 30 0; last := utc 2024 1 1 0 30 0;
       src_addr := IPv4Address 3221225991; dst_addr := IPv4Address 3405803777 |}
    ∅
  = ({[ IPv4Address 3221225984 := {[ 1704067200 := 200 ]} ]}, Ok ()).
Proof. vm_compute. reflexivity. Qed.

(** ** Bucket keys *)

(** The keys of the single-bucket branch are multiples of aggregation_time:
    this is integer arithmetic. *)
Lemma time_bucket_aligned config t b :
  time_bucket config t = Ok b → b mod aggregation_time config = 0.
Proof.
  intros Hb. apply time_bucket_inv in Hb as [Hagg ->].
  set (a := aggregation_time config) in *.
  rewrite (Z.mod_eq t a) by done.
  replace (t - (t - a * (t / a))) with ((t / a) * a) by lia.
  apply Z.mod_mul. done.
Qed.

Lemma py_int_of_integer (x : Q) (z : Z) : (x == inject_Z z)%Q → py_int x = z.
Proof.
  destruct x as [n d]. unfold Qeq, py_int. simpl. rewrite Z.mul_1_r.
  intros ->. apply Z.quot_mul. lia.
Qed.

(** The key of the packet-spreading branch, when the float operations are
    taken to be exact: [time - time % aggregation_time] is then the integer
    [aggregation_time * floor(time / aggregation_time)].  The program
    computes it in binary64, where each operation rounds. *)
Lemma spread_bucket_aligned_in_exact_arithmetic config (time m : Q) :
  py_float_mod time (aggregation_time config) = Ok m →
  py_int (time - m) mod aggregation_time config = 0.
Proof.
  unfold py_float_mod. case_decide as Hagg; [done|].
  set (a := aggregation_time config) in *.
  set (k := Qfloor (time / inject_Z a)).
  intros Hm. injection Hm as <-.
  rewrite (py_int_of_integer _ (k * a)).
  - by apply Z.mod_mul.
  - rewrite inject_Z_mult. ring.
Qed.

Lemma ensure_source_aligned config src (data : CountMap) :
  keys_aligned config data → keys_aligned config (ensure_source src data).1.
Proof.
  intros Hdata. unfold ensure_source.
  destruct (data !! src) as [b|] eqn:Hsrc; [done|]. simpl.
  intros src' buckets time count Hl Hb.
  destruct (decide (src = src')) as [<-|Hne].
  - rewrite lookup_insert_eq in Hl. injection Hl as <-.
    by rewrite lookup_empty in Hb.
  - rewrite lookup_insert_ne in Hl by done. by eapply Hdata.
Qed.

Lemma add_packets_aligned config src bucket count (data : CountMap) :
  bucket mod aggregation_time config = 0 →
  keys_aligned config data →
  keys_aligned config (add_packets src bucket count data).1.
Proof.
  intros Hbucket Hdata. unfold add_packets.
  destruct (data !! src) as [b|] eqn:Hsrc; [|done]. simpl.
  intros src' buckets time c Hl Hb.
  destruct (decide (src = src')) as [<-|Hne].
  - rewrite lookup_insert_eq in Hl. injection Hl as <-.
    destruct (decide (bucket = time)) as [<-|Hnt]; [done|].
    rewrite lookup_insert_ne in Hb by done. by eapply Hdata.
  - rewrite lookup_insert_ne in Hl by done. by eapply Hdata.
Qed.

Lemma spread_packets_aligned config src first delta n :
  ∀ i (data : CountMap),
  keys_aligned config data →
  keys_aligned config (spread_packets config src first delta i n data).1.
Proof.
  induction n as [|n IH]; intros i data Hdata; [done|].
  cbn [spread_packets]. run_proc.
  destruct (py_float_mod _ _) as [m|e] eqn:Hm; [|done].
  pose proof (add_packets_aligned config src
                (py_int (first + inject_Z i * delta - m)) 1 data
                (spread_bucket_aligned_in_exact_arithmetic _ _ _ Hm) Hdata)
    as Hadd.
  destruct (add_packets src _ 1 data) as [d1 [[]|e]]; [|done].
  by apply IH.
Qed.

(** With the float operations taken to be exact, aggregate_flows keeps
    every bucket key of the CountMap a multiple of aggregation_time, whether
    it returns or raises. *)
Lemma aggregate_flows_keys_aligned_in_exact_arithmetic config flow
    (data : CountMap) :
  keys_aligned config data →
  keys_aligned config (aggregate_flows config flow data).1.
Proof.
  intros Hdata. unfold aggregate_flows. cbv zeta.
  set (tf := timestamp (first flow)). set (tl := timestamp (last flow)).
  clearbody tf tl. run_proc.
  destruct (source_key config (src_addr flow)) as [src|e]; [|done].
  destruct (time_bucket config (py_int tf)) as [fb|e] eqn:Hfb; [|done].
  destruct (time_bucket config (py_int tl)) as [lb|e] eqn:Hlb; [|done].
  pose proof (ensure_source_aligned config src data Hdata) as Hens.
  destruct (ensure_source src data) as [d1 [[]|e]]; [|done].
  case_bool_decide.
  - apply add_packets_aligned; [by eapply time_bucket_aligned | done].
  - destruct (py_float_div _ _) as [delta|e]; [|done].
    by apply spread_packets_aligned.
Qed.

(** ** The text written by write_allowlist_as_csv *)

Lemma append_nil (b : string) : EmptyString +:+ b = b.
Proof. reflexivity. Qed.

Lemma append_cons (x : ascii) (a b : string) :
  String x a +:+ b = String x (a +:+ b).
Proof. reflexivity. Qed.

Lemma append_assoc (a b c : string) : (a +:+ b) +:+ c = a +:+ (b +:+ c).
Proof.
  induction a as [|x a IH]; [done|]. rewrite !append_cons. by f_equal.
Qed.

Lemma last_char_append (a b : string) :
  b ≠ EmptyString → last_char (a +:+ b) = last_char b.
Proof.
  intros Hb. induction a as [|x a IH]; [done|].
  rewrite append_cons. rewrite <- IH. simpl.
  destruct (a +:+ b) eqn:Hab; [|done].
  destruct a; [by rewrite append_nil in Hab | by rewrite append_cons in Hab].
Qed.

Lemma string_forall_not_exists (p q : ascii → bool) (s : string) :
  (∀ c, p c = true → q c = false) →
  string_forall p s = true → string_exists q s = false.
Proof.
  intros Hpq. induction s as [|c s IH]; simpl; [done|].
  rewrite andb_true_iff. intros [Hc Hs]. by rewrite (Hpq c Hc), IH.
Qed.

Lemma string_forall_last (p : ascii → bool) (s : string) :
  s ≠ EmptyString → string_forall p s = true →
  ∃ c, last_char s = Some c ∧ p c = true.
Proof.
  induction s as [|c s IH]; [done|]. intros _. simpl.
  rewrite andb_true_iff. intros [Hc Hs].
  destruct s as [|c' s']; [by exists c|].
  apply IH; done.
Qed.

Lemma string_of_uint_digits (d : Decimal.uint) :
  string_forall is_digit (DecimalString.NilEmpty.string_of_uint d) = true.
Proof. induction d; simpl; by rewrite ?IHd. Qed.

Lemma string_of_uint_nonempty (d : Decimal.uint) :
  DecimalString.NilZero.string_of_uint d ≠ EmptyString.
Proof. by destruct d. Qed.

Lemma nilzero_string_of_uint_digits (d : Decimal.uint) :
  string_forall is_digit (DecimalString.NilZero.string_of_uint d) = true.
Proof. destruct d; try done; apply (string_of_uint_digits (_ d)). Qed.

(** [str(n)] is an optional minus sign followed by decimal digits, the
    last character being a digit. *)
Lemma str_int_chars (n : Z) :
  string_forall (λ c, is_digit c || bool_decide (c = "-"%char)) (str_int n) = true
  ∧ ∃ c, last_char (str_int n) = Some c ∧ is_digit c = true.
Proof.
  unfold str_int. destruct (Z.to_int n) as [d|d]; simpl.
  - pose proof (nilzero_string_of_uint_digits d) as Hd. split.
    + revert Hd. generalize (DecimalString.NilZero.string_of_uint d).
      intros s. induction s as [|c s IH]; simpl; [done|].
      rewrite !andb_true_iff. intros [-> ?]. split; [done | by apply IH].
    + apply string_forall_last; [apply string_of_uint_nonempty | done].
  - pose proof (nilzero_string_of_uint_digits d) as Hd. split.
    + revert Hd. generalize (DecimalString.NilZero.string_of_uint d).
      intros s. induction s as [|c s IH]; simpl; [done|].
      rewrite !andb_true_iff. intros [-> ?]. split; [done | by apply IH].
    + destruct (string_forall_last is_digit _ (string_of_uint_nonempty d) Hd)
        as (c & Hc & Hdc).
      exists c. split; [|done].
      destruct (DecimalString.NilZero.string_of_uint d) eqn:Hs; [done|].
      exact Hc.
Qed.

Lemma digit_or_minus_not_special c :
  is_digit c || bool_decide (c = "-"%char) = true → special c = false.
Proof.
  unfold is_digit, special, delimiter, quotechar, CR, LF.
  rewrite !orb_true_iff, !bool_decide_eq_true.
  intros H. repeat destruct H as [H| H]; subst c; reflexivity.
Qed.

Lemma csv_field_str_int (n : Z) : csv_field (str_int n) = str_int n.
Proof.
  unfold csv_field.
  rewrite (string_forall_not_exists _ special (str_int n)
             digit_or_minus_not_special); [done|].
  apply str_int_chars.
Qed.

Lemma is_digit_not_whitespace c : is_digit c = true → is_whitespace c = false.
Proof.
  unfold is_digit, is_whitespace, CR, LF.
  rewrite !orb_true_iff, !bool_decide_eq_true.
  intros H. repeat destruct H as [H| H]; subst c; reflexivity.
Qed.

(** The body of a data row, without its line terminator. *)
Lemma writerow_str_int (a : string) (n : Z) :
  writerow a (str_int n)
  = (csv_field a +:+ String delimiter (str_int n)) +:+ lineterminator
  ∧ ends_in_whitespace (csv_field a +:+ String delimiter (str_int n)) = false.
Proof.
  split.
  - unfold writerow. by rewrite csv_field_str_int, append_assoc.
  - unfold ends_in_whitespace.
    destruct (str_int_chars n) as [_ (c & Hc & Hd)].
    rewrite last_char_append by done.
    assert (Hne : str_int n ≠ EmptyString) by (by destruct (str_int n)).
    change (String delimiter (str_int n))
      with (String delimiter EmptyString +:+ str_int n).
    rewrite last_char_append, Hc by done.
    by apply is_digit_not_whitespace.
Qed.

(** C8, as stated, fails: the header line that write_allowlist_as_csv
    writes for the empty allowlist ends in CR LF.  Read as LF-terminated
    lines, the text has a line that ends in the whitespace character CR. *)
Lemma csv_lines_end_in_carriage_return :
  write_allowlist_as_csv example_Library ∅
    = "ip,packets" +:+ String CR (String LF EmptyString) ∧
  lines_lf (write_allowlist_as_csv example_Library ∅)
    = ["ip,packets" +:+ String CR EmptyString; EmptyString] ∧
  existsb ends_in_whitespace (lines_lf (write_allowlist_as_csv example_Library ∅))
    = true.
Proof. repeat split; vm_compute; reflexivity. Qed.

(** C8 (amended): for every allowlist, write_allowlist_as_csv writes the
    header row ip,packets followed by one row per entry, the row of an
    entry being its address, a comma and its packet count in decimal; every
    row, the header included, is terminated by CR LF (the csv module's
    default line terminator), and no row has whitespace before its
    terminator. *)
Theorem write_allowlist_as_csv_rows (L : Library) (allowlist : Allowlist) :
  ∃ rows : list string,
    write_allowlist_as_csv L allowlist
      = string_concat (map (λ row, row +:+ lineterminator) ("ip,packets" :: rows)) ∧
    lineterminator = String CR (String LF EmptyString) ∧
    length rows = size allowlist ∧
    (∀ row, row ∈ rows ↔
       ∃ ip packets, allowlist !! ip = Some packets ∧
         row = csv_field (ip_to_string L ip) +:+ String delimiter (str_int packets)) ∧
    Forall (λ row, ends_in_whitespace row = false) ("ip,packets" :: rows).
Proof.
  exists (map (λ item : ip_address * Z,
                 csv_field (ip_to_string L item.1)
                 +:+ String delimiter (str_int item.2))
              (map_to_list allowlist)).
  repeat split.
  - unfold write_allowlist_as_csv. cbn [map string_concat]. f_equal.
    induction (map_to_list allowlist) as [|[ip n] l IH]; [done|].
    cbn [map string_concat]. rewrite IH. f_equal.
    apply writerow_str_int.
  - by rewrite length_map, length_map_to_list.
  - intros Hin. apply list_elem_of_fmap in Hin as ([ip n] & -> & Hin).
    apply elem_of_map_to_list in Hin. by exists ip, n.
  - intros (ip & n & Hl & ->). apply list_elem_of_fmap.
    exists (ip, n). split; [done | by apply elem_of_map_to_list].
  - apply Forall_cons. split; [reflexivity|].
    apply Forall_forall. intros row Hin.
    apply list_elem_of_fmap in Hin as ([ip n] & -> & _).
    apply writerow_str_int.
Qed.

Example csv_of_one_entry :
  write_allowlist_as_csv example_Library {[ IPv4Address 3221225984 := 200 ]}
  = "ip,packets" +:+ lineterminator +:+ "192.0.2.0,200" +:+ lineterminator.
Proof. vm_compute. reflexivity. Qed.

(** ** The command line and the end of main *)

Lemma parse_args_no_files W cl :
  arg_files cl = [] → parse_args W cl = Raise (SystemExit 2).
Proof.
  intros Hf. unfold parse_args. rewrite Hf.
  destruct (arg_config cl) as [path|]; [destruct (can_open W path)|]; done.
Qed.

Lemma parse_args_Ok W cl args :
  parse_args W cl = Ok args →
  arg_files cl ≠ [] ∧ now args = arg_now cl ∧ output args = arg_output cl ∧
  files args = arg_files cl ∧ config args = arg_config cl.
Proof.
  unfold parse_args. intros H. apply bind_Ok in H as (_ & _ & H).
  destruct (arg_files cl); [done|]. by injection H as <-.
Qed.

Lemma main_allowlist_Ok L W cl args allowlist :
  main_allowlist L W cl = Ok (args, allowlist) →
  parse_args W cl = Ok args ∧ ∃ t, reference_time L (now args) = Ok t.
Proof.
  unfold main_allowlist. intros H.
  apply bind_Ok in H as (args' & Hargs & H).
  apply bind_Ok in H as (cfg & _ & H).
  apply bind_Ok in H as (results & _ & H).
  apply bind_Ok in H as (t & Ht & H).
  apply bind_Ok in H as (al & _ & H).
  injection H as -> ->. eauto.
Qed.

Lemma reference_time_None L : reference_time L None = Raise AttributeError.
Proof. reflexivity. Qed.

(** C7, as stated, fails: a command line without input files is a usage
    error of the argument parser -- FILES is declared with nargs="+" -- and
    the process exits with status 2 before anything is printed. *)
Lemma main_without_files_exits_with_2 :
  main example_Library example_World
    {| arg_config := None; arg_now := Some "2024-01-01T02:00:00";
       arg_output := None; arg_files := [] |}
    = Raise (SystemExit 2) ∧
  exit_code (main example_Library example_World
    {| arg_config := None; arg_now := Some "2024-01-01T02:00:00";
       arg_output := None; arg_files := [] |}) = 2.
Proof. split; vm_compute; reflexivity. Qed.

(** C7 (amended): a command line with zero input files is rejected by the
    argument parser with exit status 2.  A run that names at least one
    file, supplies -n, has no -o and ends with an empty allowlist is not an
    error: it prints "The allowlist contains 0 entries." and returns with
    status 0. *)
Theorem main_empty_allowlist (L : Library) (W : World) (cl : CommandLine) :
  (arg_files cl = [] →
     main L W cl = Raise (SystemExit 2) ∧ exit_code (main L W cl) = 2) ∧
  (∀ args, main_allowlist L W cl = Ok (args, ∅) → arg_output cl = None →
     main L W cl
       = Ok {| stdout := "The allowlist contains 0 entries."
                         +:+ String LF EmptyString;
               written := None |} ∧
     exit_code (main L W cl) = 0 ∧
     arg_files cl ≠ [] ∧ ∃ s, arg_now cl = Some s).
Proof.
  split.
  - intros Hf. unfold main, main_allowlist.
    rewrite (parse_args_no_files W cl Hf). done.
  - intros args Hrun Hout.
    destruct (main_allowlist_Ok _ _ _ _ _ Hrun) as (Hargs & t & Ht).
    apply parse_args_Ok in Hargs as (Hfiles & Hnow & Houtput & _).
    assert (Hmain : main L W cl
              = Ok {| stdout := "The allowlist contains 0 entries."
                                +:+ String LF EmptyString;
                      written := None |}).
    { unfold main. rewrite Hrun. simpl. unfold main_output.
      rewrite Houtput, Hout. reflexivity. }
    rewrite Hmain. repeat split; [done|].
    rewrite Hnow in Ht. destruct (arg_now cl) as [s|]; [by exists s|].
    by rewrite reference_time_None in Ht.
Qed.

Lemma main_empty_allowlist_witness :
  main example_Library example_World
    {| arg_config := None; arg_now := Some "2024-01-01T02:00:00";
       arg_output := None; arg_files := ["nfcapd.202401010000"] |}
  = Ok {| stdout := "The allowlist contains 0 entries."
                    +:+ String LF EmptyString;
          written := None |}.
Proof.
  refine (proj1 (proj2 (main_empty_allowlist example_Library example_World
                          {| arg_config := None;
                             arg_now := Some "2024-01-01T02:00:00";
                             arg_output := None;
                             arg_files := ["nfcapd.202401010000"] |})
                   {| config := None; now := Some "2024-01-01T02:00:00";
                      output := None; files := ["nfcapd.202401010000"] |}
                   _ _)).
  - vm_compute. reflexivity.
  - reflexivity.
Defined.

Example main_scenario_one :
  main example_Library example_World
    {| arg_config := None; arg_now := Some "2024-01-01T02:00:00";
       arg_output := None; arg_files := ["nfcapd.202401010000"] |}
  = Ok {| stdout := "The allowlist contains 0 entries."
                    +:+ String LF EmptyString;
          written := None |}.
Proof. vm_compute. reflexivity. Qed.

(** Without -n no command line runs to completion, with or without -o:
    main hands optional_datetime(args.now).timestamp() to build_allowlist
    before it looks at args.output. *)
Lemma main_without_now_never_completes (L : Library) (W : World)
    (cl : CommandLine) :
  arg_now cl = None → ∀ out, main L W cl ≠ Ok out.
Proof.
  intros Hnow out Hmain. unfold main in Hmain.
  apply bind_Ok in Hmain as ([args al] & Hrun & _).
  destruct (main_allowlist_Ok _ _ _ _ _ Hrun) as (Hargs & t & Ht).
  apply parse_args_Ok in Hargs as (_ & Hn & _).
  by rewrite Hn, Hnow, reference_time_None in Ht.
Qed.

(** When -o is absent, a run completes exactly when -n is supplied and the
    files, the reference time and the allowlist are computed without error;
    it then prints only the one-line summary and writes no file. *)
Lemma main_summary_without_output (L : Library) (W : World) (cl : CommandLine) :
  arg_output cl = None →
  ∀ out, main L W cl = Ok out ↔
    ∃ s args allowlist,
      arg_now cl = Some s ∧
      main_allowlist L W cl = Ok (args, allowlist) ∧
      out = {| stdout := "The allowlist contains "
                         +:+ str_int (Z.of_nat (size allowlist))
                         +:+ " entries." +:+ String LF EmptyString;
               written := None |}.
Proof.
  intros Hout out. split.
  - intros Hmain. unfold main in Hmain.
    apply bind_Ok in Hmain as ([args al] & Hrun & Hemit).
    destruct (main_allowlist_Ok _ _ _ _ _ Hrun) as (Hargs & t & Ht).
    apply parse_args_Ok in Hargs as (_ & Hn & Ho & _).
    cbn [fst snd] in Hemit. unfold main_output in Hemit.
    rewrite Ho, Hout in Hemit. injection Hemit as <-.
    rewrite Hn in Ht. destruct (arg_now cl) as [s|].
    + by exists s, args, al.
    + by rewrite reference_time_None in Ht.
  - intros (s & args & al & _ & Hrun & ->). unfold main. rewrite Hrun.
    destruct (main_allowlist_Ok _ _ _ _ _ Hrun) as (Hargs & _).
    apply parse_args_Ok in Hargs as (_ & _ & Ho & _).
    change (Ok (args, al) ≫= λ r, main_output L W r.1 r.2)
      with (main_output L W args al).
    unfold main_output. by rewrite Ho, Hout.
Qed.

(** C9 (the code departs from the claim): init_argparse declares -n as
    optional, but main calls .timestamp() on optional_datetime(args.now)
    without a test for None.  On a command line with one capture file,
    without -o and without -n, the file is processed, optional_datetime
    returns None, and the call raises AttributeError: the run does not
    complete, the exit status is 1, and no summary is printed. *)
Theorem main_without_now_does_not_complete :
  main example_Library example_World
    {| arg_config := None; arg_now := None;
       arg_output := None; arg_files := ["nfcapd.202401010000"] |}
    = Raise AttributeError ∧
  exit_code (main example_Library example_World
    {| arg_config := None; arg_now := None;
       arg_output := None; arg_files := ["nfcapd.202401010000"] |}) = 1.
Proof. split; vm_compute; reflexivity. Qed.

(** ** optional_datetime and UTC offsets *)











(** 02:00 at UTC+2 and 00:00 at UTC+0 are the same instant, 1704067200
    seconds after the epoch; the first is decoded as 02:00 UTC. *)
Example same_instant_two_offsets :
  utc_microseconds (replace_tzinfo (naive 2024 1 1 2 0 0) (Some 7200000000))
    = utc_microseconds (replace_tzinfo (naive 2024 1 1 0 0 0) (Some 0)) ∧
  reference_time example_Library (Some "2024-01-01T02:00:00+02:00")
    = Ok (1704074400000000 # 1000000) ∧
  reference_time example_Library (Some "2024-01-01T00:00:00+00:00")
    = Ok (1704067200000000 # 1000000).
Proof. repeat split; vm_compute; reflexivity. Qed.

(** ** binary64: rounding a value that is a float *)

















(** ** binary64: the bucket of a time between 0 and 2^53 *)





(** *** Floats in the range of the packet times *)








(** ** merge_data as the reduce stage of main *)

Lemma sum_buckets_assoc (x y z : Buckets) :
  sum_buckets (sum_buckets x y) z = sum_buckets x (sum_buckets y z).
Proof.
  apply map_eq. intros time. unfold sum_buckets. rewrite !lookup_union_with.
  destruct (x !! time), (y !! time), (z !! time); simpl; f_equal; lia.
Qed.

Lemma sum_counts_assoc (a b c : CountMap) :
  sum_counts (sum_counts a b) c = sum_counts a (sum_counts b c).
Proof.
  apply map_eq. intros src. unfold sum_counts. rewrite !lookup_union_with.
  destruct (a !! src), (b !! src), (c !! src); simpl; f_equal.
  apply sum_buckets_assoc.
Qed.

Lemma sum_counts_empty_l (a : CountMap) : sum_counts ∅ a = a.
Proof.
  apply map_eq. intros src. unfold sum_counts.
  rewrite lookup_union_with, lookup_empty. by destruct (a !! src).
Qed.

Lemma sum_counts_empty_r (a : CountMap) : sum_counts a ∅ = a.
Proof. by rewrite sum_counts_comm, sum_counts_empty_l. Qed.

Lemma bucket_sum_sum_buckets (x y : Buckets) :
  bucket_sum (sum_buckets x y) = bucket_sum x + bucket_sum y.
Proof.
  induction y as [|time count y Hfresh IH] using map_ind.
  - replace (sum_buckets x ∅) with x; [rewrite bucket_sum_empty; lia|].
    apply map_eq. intros t. unfold sum_buckets.
    rewrite lookup_union_with, lookup_empty. by destruct (x !! t).
  - replace (sum_buckets x (<[time := count]> y))
      with (<[time := default 0 (sum_buckets x y !! time) + count]>
              (sum_buckets x y)).
    + rewrite bucket_sum_add, bucket_sum_insert_fresh by done. lia.
    + apply map_eq. intros t. unfold sum_buckets.
      destruct (decide (t = time)) as [->|Hne].
      * rewrite lookup_insert_eq, !lookup_union_with, lookup_insert_eq, Hfresh.
        destruct (x !! time); simpl; f_equal; lia.
      * rewrite lookup_insert_ne by done.
        rewrite !lookup_union_with, lookup_insert_ne by done. done.
Qed.

Lemma total_packets_empty : total_packets ∅ = 0.
Proof. done. Qed.

Lemma total_packets_sum_counts (a b : CountMap) :
  total_packets (sum_counts a b) = total_packets a + total_packets b.
Proof.
  induction b as [|src buckets b Hfresh IH] using map_ind.
  - rewrite sum_counts_empty_r, total_packets_empty. lia.
  - rewrite (total_packets_insert_fresh b) by done.
    destruct (a !! src) as [x|] eqn:Ha.
    + replace (sum_counts a (<[src := buckets]> b))
        with (<[src := sum_buckets x buckets]> (sum_counts a b)).
      * rewrite (total_packets_insert _ _ x).
        -- rewrite bucket_sum_sum_buckets. lia.
        -- unfold sum_counts. rewrite lookup_union_with, Ha, Hfresh. done.
      * apply map_eq. intros k. unfold sum_counts.
        destruct (decide (k = src)) as [->|Hne].
        -- rewrite lookup_insert_eq, lookup_union_with, lookup_insert_eq, Ha. done.
        -- rewrite lookup_insert_ne by done.
           rewrite !lookup_union_with, lookup_insert_ne by done. done.
    + replace (sum_counts a (<[src := buckets]> b))
        with (<[src := buckets]> (sum_counts a b)).
      * rewrite total_packets_insert_fresh; [lia|].
        unfold sum_counts. rewrite lookup_union_with, Ha, Hfresh. done.
      * apply map_eq. intros k. unfold sum_counts.
        destruct (decide (k = src)) as [->|Hne].
        -- rewrite lookup_insert_eq, lookup_union_with, lookup_insert_eq, Ha. done.
        -- rewrite lookup_insert_ne by done.
           rewrite !lookup_union_with, lookup_insert_ne by done. done.
Qed.

(** X1: merge_data is associative and the empty dict is neutral on both
    sides, so partial CountMaps can be merged in any grouping. *)
Theorem merge_data_assoc (A B C : CountMap) :
  merge_data (merge_data A B) C = merge_data A (merge_data B C) ∧
  merge_data ∅ A = A ∧ merge_data A ∅ = A.
Proof.
  rewrite !merge_data_sum. split; [apply sum_counts_assoc|].
  split; [apply sum_counts_empty_l | apply sum_counts_empty_r].
Qed.

Lemma foldl_merge_data_sum (results : list CountMap) (acc : CountMap) :
  foldl merge_data acc results = sum_counts acc (foldl merge_data ∅ results).
Proof.
  revert acc. induction results as [|r results IH]; intros acc; simpl.
  - by rewrite sum_counts_empty_r.
  - rewrite IH, (IH (merge_data ∅ r)), !merge_data_sum.
    by rewrite sum_counts_empty_l, sum_counts_assoc.
Qed.

Lemma foldl_merge_data_Permutation (results results' : list CountMap) :
  results ≡ₚ results' →
  foldl merge_data ∅ results = foldl merge_data ∅ results'.
Proof.
  induction 1 as [|r l l' _ IH|r1 r2 l|l1 l2 l3 _ IH1 _ IH2]; simpl.
  - done.
  - rewrite (foldl_merge_data_sum l), (foldl_merge_data_sum l'). by rewrite IH.
  - rewrite (foldl_merge_data_sum l (merge_data (merge_data ∅ r2) r1)).
    rewrite (foldl_merge_data_sum l (merge_data (merge_data ∅ r1) r2)).
    f_equal. rewrite !merge_data_sum, !sum_counts_empty_l. apply sum_counts_comm.
  - by rewrite IH1.
Qed.

(** X2: merging loses and invents no packet: the counts of the merged
    CountMap sum to the sum of the counts of the two arguments, and the
    counts of the CountMap that the loop of main builds from the workers'
    results sum to the sum over all results. *)
Theorem merge_data_total_packets (A B : CountMap) (results : list CountMap) :
  total_packets (merge_data A B) = total_packets A + total_packets B ∧
  total_packets (foldl merge_data ∅ results)
    = foldr Z.add 0 (total_packets <$> results).
Proof.
  split; [rewrite merge_data_sum; apply total_packets_sum_counts|].
  induction results as [|r results IH]; simpl; [done|].
  rewrite foldl_merge_data_sum, total_packets_sum_counts, IH.
  rewrite merge_data_sum, sum_counts_empty_l. done.
Qed.

(** X3: the loop of main that merges the workers' results gives equal
    mappings for every order of the results: the same source keys, and for
    each the same bucket times with the same counts.  The order in which
    the dict lists its keys is not part of a CountMap here. *)
Theorem merged_results_order_independent (results results' : list CountMap) :
  results ≡ₚ results' →
  foldl merge_data ∅ results = foldl merge_data ∅ results'.
Proof. apply foldl_merge_data_Permutation. Qed.

Lemma merged_results_order_independent_witness :
  foldl merge_data ∅
    [ {[ IPv4Address 1 := {[ 0 := 5; 3600 := 1 ]} ]};
      {[ IPv4Address 1 := {[ 0 := 2 ]}; IPv4Address 2 := {[ 7200 := 1 ]} ]} ]
  = foldl merge_data ∅
    [ {[ IPv4Address 1 := {[ 0 := 2 ]}; IPv4Address 2 := {[ 7200 := 1 ]} ]};
      {[ IPv4Address 1 := {[ 0 := 5; 3600 := 1 ]} ]} ].
Proof. apply merged_results_order_independent. apply perm_swap. Defined.

(** ** Network masks *)

Lemma ip_int_from_prefix_testbit (w p : Z) (i : N) :
  0 ≤ p ≤ w →
  N.testbit (ip_int_from_prefix w p) i
  = bool_decide (Z.to_N (w - p) ≤ i)%N && bool_decide (i < Z.to_N w)%N.
Proof.
  intros Hp. unfold ip_int_from_prefix. cbv zeta.
  rewrite N.lxor_spec, N.shiftr_spec by lia.
  destruct (decide (i < Z.to_N w)%N) as [Hlt|Hge].
  - rewrite (N.ones_spec_low _ i) by done.
    rewrite (bool_decide_eq_true_2 (i < Z.to_N w)%N) by done.
    rewrite andb_true_r.
    destruct (decide (Z.to_N (w - p) ≤ i)%N) as [Hle|Hgt].
    + rewrite N.ones_spec_high by lia. by rewrite bool_decide_eq_true_2.
    + rewrite N.ones_spec_low by lia. by rewrite bool_decide_eq_false_2.
  - rewrite !N.ones_spec_high by lia.
    rewrite (bool_decide_eq_false_2 (i < Z.to_N w)%N) by done.
    by rewrite andb_false_r.
Qed.

Lemma land_ip_int_from_prefix (w p : Z) (a : N) :
  0 ≤ p ≤ w → (a < 2 ^ Z.to_N w)%N →
  N.land a (ip_int_from_prefix w p) = (a - a mod 2 ^ Z.to_N (w - p))%N.
Proof.
  intros Hp Ha. set (k := Z.to_N (w - p)).
  assert (Hk : (2 ^ k ≠ 0)%N) by (apply N.pow_nonzero; lia).
  replace (a - a mod 2 ^ k)%N with (N.shiftl (N.shiftr a k) k).
  2:{ rewrite N.shiftl_mul_pow2, N.shiftr_div_pow2.
      pose proof (N.div_mod a (2 ^ k) Hk) as Hdm.
      set (q := (a / 2 ^ k)%N) in *. set (r := (a mod 2 ^ k)%N) in *.
      set (m := (2 ^ k)%N) in *. clearbody q r m. nia. }
  apply N.bits_inj. intros i.
  rewrite N.land_spec, ip_int_from_prefix_testbit by done. fold k.
  destruct (decide (k ≤ i)%N) as [Hle|Hgt].
  - rewrite N.shiftl_spec_high' by done. rewrite N.shiftr_spec by lia.
    replace (i - k + k)%N with i by lia.
    rewrite (bool_decide_eq_true_2 (k ≤ i)%N) by done. simpl.
    case_bool_decide as Hw; [by rewrite andb_true_r|].
    rewrite andb_false_r. symmetry.
    rewrite <- (N.mod_small a (2 ^ Z.to_N w)) by done.
    apply N.mod_pow2_bits_high. lia.
  - rewrite N.shiftl_spec_low by lia.
    rewrite (bool_decide_eq_false_2 (k ≤ i)%N) by done.
    by rewrite andb_false_r.
Qed.

Lemma masked_network_address_Ok (a : ip_address) (prefixlen : Z) :
  0 ≤ prefixlen ≤ max_prefixlen a →
  (ip_int a < 2 ^ Z.to_N (max_prefixlen a))%N →
  masked_network_address a prefixlen
  = Ok (with_ip_int a
          (ip_int a - ip_int a mod 2 ^ Z.to_N (max_prefixlen a - prefixlen))%N).
Proof.
  intros Hp Ha. unfold masked_network_address.
  rewrite bool_decide_eq_true_2 by done.
  by rewrite land_ip_int_from_prefix.
Qed.

(** X4: for a prefix length within the bounds of the address family,
    the network address computed for a source clears the host bits of the
    address and keeps the others: it is the address minus its remainder
    modulo 2^(max_prefixlen - prefixlen). *)
Theorem masked_network_address_clears_host_bits (a : ip_address) (prefixlen : Z) :
  0 ≤ prefixlen ≤ max_prefixlen a →
  (ip_int a < 2 ^ Z.to_N (max_prefixlen a))%N →
  masked_network_address a prefixlen
  = Ok (with_ip_int a
          (ip_int a - ip_int a mod 2 ^ Z.to_N (max_prefixlen a - prefixlen))%N).
Proof. apply masked_network_address_Ok. Qed.

Lemma masked_network_address_clears_host_bits_witness :
  masked_network_address (IPv4Address 3221225991) 24
  = Ok (IPv4Address 3221225984).
Proof.
  apply (masked_network_address_clears_host_bits (IPv4Address 3221225991) 24).
  - simpl. lia.
  - simpl. lia.
Defined.

Lemma masked_network_address_idempotent a p k :
  masked_network_address a p = Ok k → masked_network_address k p = Ok k.
Proof.
  unfold masked_network_address. case_bool_decide as Hp; [|done].
  intros [= <-].
  assert (Hmax : ∀ n, max_prefixlen (with_ip_int a n) = max_prefixlen a)
    by (by destruct a).
  assert (Hint : ∀ n, ip_int (with_ip_int a n) = n) by (by destruct a).
  assert (Hwith : ∀ n m, with_ip_int (with_ip_int a n) m = with_ip_int a m)
    by (by destruct a).
  rewrite Hmax, bool_decide_eq_true_2 by done.
  rewrite Hint, Hwith. by rewrite <- N.land_assoc, N.land_diag.
Qed.

Lemma source_key_fixed_point (config : Configuration) (a k : ip_address) :
  source_key config a = Ok k → source_key config k = Ok k.
Proof.
  intros Hk.
  assert (Hfam : match a, k with
                 | IPv4Address _, IPv4Address _
                 | IPv6Address _, IPv6Address _ => True
                 | _, _ => False
                 end).
  { destruct a; simpl in Hk; unfold masked_network_address in Hk;
      case_bool_decide; try done; by injection Hk as <-. }
  destruct a, k; try done; simpl in *;
    exact (masked_network_address_idempotent _ _ _ Hk).
Qed.

(** X5: the key under which aggregate_flows files a source is a fixed
    point of the masking: the key of a key is that key. *)
Theorem source_key_idempotent (config : Configuration) (a k : ip_address) :
  source_key config a = Ok k → source_key config k = Ok k.
Proof. apply source_key_fixed_point. Qed.

Lemma source_key_idempotent_witness :
  source_key default_Configuration (IPv4Address 3221225984)
  = Ok (IPv4Address 3221225984).
Proof.
  apply (source_key_idempotent default_Configuration (IPv4Address 3221225991)).
  vm_compute. reflexivity.
Defined.

Lemma div_pow2_eq_iff (n m k : N) :
  (n - n mod 2 ^ k = m - m mod 2 ^ k ↔ n / 2 ^ k = m / 2 ^ k)%N.
Proof.
  assert (Hk : (2 ^ k ≠ 0)%N) by (apply N.pow_nonzero; lia).
  pose proof (N.div_mod n (2 ^ k) Hk) as Hn.
  pose proof (N.div_mod m (2 ^ k) Hk) as Hm.
  set (qn := (n / 2 ^ k)%N) in *. set (rn := (n mod 2 ^ k)%N) in *.
  set (qm := (m / 2 ^ k)%N) in *. set (rm := (m mod 2 ^ k)%N) in *.
  set (b := (2 ^ k)%N) in *. clearbody qn rn qm rm b.
  split.
  - intros Heq. apply (N.mul_cancel_l _ _ b Hk). lia.
  - intros ->. lia.
Qed.

Lemma source_key_aggregation_prefix (config : Configuration) (a : ip_address) :
  source_key config a = masked_network_address a (aggregation_prefix config a).
Proof. by destruct a. Qed.

(** X6: aggregate_flows files two sources of one family under the same key
    exactly when their addresses agree above the host bits, that is, when
    they lie in the same network of the configured prefix length. *)
Theorem source_key_same_network (config : Configuration) (a : ip_address)
    (n m : N) :
  0 ≤ aggregation_prefix config a ≤ max_prefixlen a →
  (n < 2 ^ Z.to_N (max_prefixlen a))%N →
  (m < 2 ^ Z.to_N (max_prefixlen a))%N →
  source_key config (with_ip_int a n) = source_key config (with_ip_int a m) ↔
  (n / 2 ^ Z.to_N (max_prefixlen a - aggregation_prefix config a)
   = m / 2 ^ Z.to_N (max_prefixlen a - aggregation_prefix config a))%N.
Proof.
  intros Hp Hn Hm. rewrite !source_key_aggregation_prefix.
  assert (Hmax : ∀ x, max_prefixlen (with_ip_int a x) = max_prefixlen a)
    by (by destruct a).
  assert (Hpre : ∀ x, aggregation_prefix config (with_ip_int a x)
                      = aggregation_prefix config a) by (by destruct a).
  assert (Hint : ∀ x, ip_int (with_ip_int a x) = x) by (by destruct a).
  assert (Hwith : ∀ x y, with_ip_int (with_ip_int a x) y = with_ip_int a y)
    by (by destruct a).
  rewrite !masked_network_address_Ok by (rewrite ?Hmax, ?Hpre, ?Hint; done).
  rewrite !Hmax, !Hpre, !Hint, !Hwith. rewrite <- div_pow2_eq_iff.
  split.
  - intros [= Heq]. destruct a; by injection Heq.
  - by intros ->.
Qed.

Lemma source_key_same_network_witness :
  source_key default_Configuration (IPv4Address 3325256714)
  = source_key default_Configuration (IPv4Address 3325256904).
Proof.
  apply (source_key_same_network default_Configuration (IPv4Address 0)
           3325256714 3325256904); [simpl; lia | simpl; lia | simpl; lia |].
  vm_compute. reflexivity.
Defined.

(** ** stream_filter *)

Lemma network_contains_default (a : ip_address) :
  existsb (λ net, network_contains net a)
    (destination_addresses default_Configuration) = true.
Proof.
  destruct a as [n|n]; simpl; unfold network_contains; simpl.
  - rewrite bool_decide_eq_true_2; [done|].
    change (ip_int_from_prefix 32 0) with 0%N. apply N.land_0_r.
  - rewrite bool_decide_eq_true_2; [done|].
    change (ip_int_from_prefix 128 0) with 0%N. apply N.land_0_r.
Qed.

(** X7: under the default configuration, whose destination prefixes are
    0.0.0.0/0 and ::/0, stream_filter keeps exactly the flows whose
    destination port is 53, in their order, whatever their addresses. *)
Theorem stream_filter_default_keeps_port_53 (stream : list NfFlow) :
  stream_filter stream default_Configuration
  = filter (λ flow, dst_port flow = 53) stream.
Proof.
  unfold stream_filter. apply list_filter_iff. intros flow.
  rewrite network_contains_default. tauto.
Qed.

(** X8: a destination is inside a network of the configuration exactly
    when it agrees with the network address above the host bits; an address
    of the other family is never inside. *)
Theorem network_contains_same_prefix (addr : ip_address) (n : N) (p : Z) :
  0 ≤ p ≤ max_prefixlen addr →
  (ip_int addr < 2 ^ Z.to_N (max_prefixlen addr))%N →
  (n mod 2 ^ Z.to_N (max_prefixlen addr - p) = 0)%N →
  (network_contains (IPNetwork (with_ip_int addr n) p) addr = true ↔
   (ip_int addr / 2 ^ Z.to_N (max_prefixlen addr - p)
    = n / 2 ^ Z.to_N (max_prefixlen addr - p))%N) ∧
  (∀ net, same_family (network_address net) addr = false →
          network_contains net addr = false).
Proof.
  intros Hp Ha Hn. split.
  - rewrite <- div_pow2_eq_iff, Hn, N.sub_0_r.
    destruct addr as [a|a]; unfold network_contains; simpl in *;
      rewrite bool_decide_eq_true, land_ip_int_from_prefix by done; done.
  - intros [[?|?] q]; destruct addr; simpl; done.
Qed.

Lemma network_contains_same_prefix_witness :
  network_contains (IPNetwork (IPv4Address 3405803776) 24)
    (IPv4Address 3405803777) = true.
Proof.
  apply (network_contains_same_prefix (IPv4Address 3405803777) 3405803776 24);
    [simpl; lia | simpl; lia | vm_compute; reflexivity | vm_compute; reflexivity].
Defined.

(** ** aggregate_flows: what a call changes *)

Lemma aggregate_flows_Ok_total config flow (data data' : CountMap) :
  0 ≤ in_packets flow →
  aggregate_flows config flow data = (data', Ok ()) →
  total_packets data' = total_packets data + in_packets flow.
Proof.
  intros Hn Hrun.
  destruct (source_key config (src_addr flow)) as [src|e] eqn:Hsrc.
  2:{ unfold aggregate_flows in Hrun. rewrite Hsrc in Hrun. done. }
  destruct (time_bucket config (py_int (timestamp (first flow))))
    as [fb|e] eqn:Hfb.
  2:{ unfold aggregate_flows in Hrun. cbv zeta in Hrun.
      rewrite Hsrc, Hfb in Hrun. done. }
  destruct (time_bucket config (py_int (timestamp (last flow))))
    as [lb|e] eqn:Hlb.
  2:{ unfold aggregate_flows in Hrun. cbv zeta in Hrun.
      rewrite Hsrc, Hfb, Hlb in Hrun. done. }
  destruct (decide (fb = lb ∨ in_packets flow ≠ 1)) as [Hbranch|Hnot].
  - destruct (aggregate_flows_adds_in_packets config flow data src fb lb
                Hsrc Hfb Hlb Hn Hbranch) as (d & Hd & Ht).
    rewrite Hd in Hrun. by injection Hrun as <-.
  - destruct (aggregate_flows_one_packet_across_buckets config flow data
                src fb lb Hsrc Hfb Hlb) as (d & Hd & _); [lia | tauto |].
    rewrite Hd in Hrun. done.
Qed.

(** X9: a call of aggregate_flows that returns, for a flow with a
    non-negative packet count, has raised the sum of all counts of the
    CountMap by exactly in_packets. *)
Theorem aggregate_flows_conserves_packets (config : Configuration)
    (flow : NfFlow) (data data' : CountMap) :
  0 ≤ in_packets flow →
  aggregate_flows config flow data = (data', Ok ()) →
  total_packets data' = total_packets data + in_packets flow.
Proof. apply aggregate_flows_Ok_total. Qed.

Lemma aggregate_flows_conserves_packets_witness :
  total_packets
    {[ IPv4Address 3221225984 := {[ 1704067200 := 1; 1704070800 := 1 ]} ]}
  = total_packets ∅ + 2.
Proof.
  apply (aggregate_flows_conserves_packets default_Configuration
           {| in_packets := 2; dst_port := 53;
              first := utc 2024 1 1 0 59 59; last := utc 2024 1 1 1 0 1;
              src_addr := IPv4Address 3221225991;
              dst_addr := IPv4Address 3405803777 |}).
  - simpl. lia.
  - vm_compute. reflexivity.
Defined.

Lemma ensure_source_frame src (data : CountMap) k :
  k ≠ src → (ensure_source src data).1 !! k = data !! k.
Proof.
  intros Hne. unfold ensure_source. destruct (data !! src); simpl; [done|].
  by rewrite lookup_insert_ne.
Qed.

Lemma add_packets_frame src bucket count (data : CountMap) k :
  k ≠ src → (add_packets src bucket count data).1 !! k = data !! k.
Proof.
  intros Hne. unfold add_packets. destruct (data !! src); simpl; [|done].
  by rewrite lookup_insert_ne.
Qed.

Lemma spread_packets_frame config src first delta n k :
  k ≠ src →
  ∀ i (data : CountMap),
  (spread_packets config src first delta i n data).1 !! k = data !! k.
Proof.
  intros Hne. induction n as [|n IH]; intros i data; [done|].
  cbn [spread_packets]. run_proc.
  destruct (py_float_mod _ _) as [m|e]; [|done].
  pose proof (add_packets_frame src
                (py_int (first + inject_Z i * delta - m)) 1 data k Hne) as Hadd.
  destruct (add_packets src _ 1 data) as [d1 [[]|e]]; [|done].
  rewrite IH. exact Hadd.
Qed.

Lemma aggregate_flows_frame config flow (data : CountMap) k :
  source_key config (src_addr flow) ≠ Ok k →
  (aggregate_flows config flow data).1 !! k = data !! k.
Proof.
  intros Hk. unfold aggregate_flows. cbv zeta.
  set (tf := timestamp (first flow)). set (tl := timestamp (last flow)).
  clearbody tf tl. run_proc.
  destruct (source_key config (src_addr flow)) as [src|e]; [|done].
  assert (Hne : k ≠ src) by congruence.
  destruct (time_bucket config (py_int tf)) as [fb|e]; [|done].
  destruct (time_bucket config (py_int tl)) as [lb|e]; [|done].
  pose proof (ensure_source_frame src data k Hne) as Hens.
  destruct (ensure_source src data) as [d1 [[]|e]]; [|done].
  simpl in Hens. case_bool_decide.
  - by rewrite add_packets_frame.
  - destruct (py_float_div _ _) as [delta|e]; [|done].
    by rewrite spread_packets_frame.
Qed.

(** X11: aggregate_flows touches one source only: the buckets of every
    key other than the network address of the flow's source are as they
    were, whether the call returns or raises. *)
Theorem aggregate_flows_leaves_other_sources (config : Configuration)
    (flow : NfFlow) (data : CountMap) (k : ip_address) :
  source_key config (src_addr flow) ≠ Ok k →
  (aggregate_flows config flow data).1 !! k = data !! k.
Proof. apply aggregate_flows_frame. Qed.

Lemma aggregate_flows_leaves_other_sources_witness :
  (aggregate_flows default_Configuration one_packet_across_the_hour
     {[ IPv4Address 3221225991 := {[ 0 := 4 ]} ]}).1 !! IPv4Address 3221225991
  = ({[ IPv4Address 3221225991 := {[ 0 := 4 ]} ]} : CountMap)
      !! IPv4Address 3221225991.
Proof.
  apply (aggregate_flows_leaves_other_sources default_Configuration
           one_packet_across_the_hour).
  vm_compute. congruence.
Defined.

(** ** aggregate_flows: counts stay positive *)

Lemma add_packets_positive src bucket count (data : CountMap) buckets :
  (∀ s b, data !! s = Some b →
     (∀ time c, b !! time = Some c → 1 ≤ c) ∧ (s ≠ src → b ≠ ∅)) →
  data !! src = Some buckets →
  1 ≤ count →
  ∃ data', add_packets src bucket count data = (data', Ok ()) ∧
           is_Some (data' !! src) ∧ counts_positive data'.
Proof.
  intros Hdata Hsrc Hcount. unfold add_packets. rewrite Hsrc.
  eexists. split; [done|]. rewrite lookup_insert_eq. split; [by eexists|].
  intros s b Hs. destruct (decide (s = src)) as [->|Hne].
  - rewrite lookup_insert_eq in Hs. injection Hs as <-. split.
    + apply insert_non_empty.
    + intros time c Hc. destruct (decide (time = bucket)) as [->|Hnt].
      * rewrite lookup_insert_eq in Hc. injection Hc as <-.
        destruct (buckets !! bucket) as [c0|] eqn:Hb; simpl; [|lia].
        destruct (Hdata src buckets Hsrc) as [Hpos _].
        specialize (Hpos bucket c0 Hb). lia.
      * rewrite lookup_insert_ne in Hc by done.
        destruct (Hdata src buckets Hsrc) as [Hpos _]. by eapply Hpos.
  - rewrite lookup_insert_ne in Hs by done.
    destruct (Hdata s b Hs) as [Hpos Hnonempty]. split; [by apply Hnonempty | done].
Qed.

Lemma counts_positive_weaken src (data : CountMap) :
  counts_positive data →
  ∀ s b, data !! s = Some b →
    (∀ time c, b !! time = Some c → 1 ≤ c) ∧ (s ≠ src → b ≠ ∅).
Proof. intros Hdata s b Hs. destruct (Hdata s b Hs). by split. Qed.

Lemma spread_packets_positive config src first delta n :
  ∀ i (data data' : CountMap),
  counts_positive data → is_Some (data !! src) →
  spread_packets config src first delta i n data = (data', Ok ()) →
  counts_positive data'.
Proof.
  induction n as [|n IH]; intros i data data' Hdata [b Hsrc].
  - by intros [= <-].
  - cbn [spread_packets]. run_proc.
    destruct (py_float_mod _ _) as [m|e]; [|done].
    destruct (add_packets_positive src
                (py_int (first + inject_Z i * delta - m)) 1 data b
                (counts_positive_weaken src data Hdata) Hsrc ltac:(lia))
      as (d1 & -> & Hs1 & Hpos1).
    by apply IH.
Qed.

Lemma aggregate_flows_positive config flow (data data' : CountMap) :
  counts_positive data →
  1 ≤ in_packets flow →
  aggregate_flows config flow data = (data', Ok ()) →
  counts_positive data'.
Proof.
  intros Hdata Hn. unfold aggregate_flows. cbv zeta.
  set (tf := timestamp (first flow)). set (tl := timestamp (last flow)).
  clearbody tf tl. run_proc.
  destruct (source_key config (src_addr flow)) as [src|e]; [|done].
  destruct (time_bucket config (py_int tf)) as [fb|e]; [|done].
  destruct (time_bucket config (py_int tl)) as [lb|e]; [|done].
  assert (Hens : ∃ d1 b1, ensure_source src data = (d1, Ok ()) ∧
            d1 !! src = Some b1 ∧
            ∀ s b, d1 !! s = Some b →
              (∀ time c, b !! time = Some c → 1 ≤ c) ∧ (s ≠ src → b ≠ ∅)).
  { unfold ensure_source. destruct (data !! src) as [b|] eqn:Hl.
    - exists data, b. split; [done|]. split; [done|].
      by apply counts_positive_weaken.
    - exists (<[src := ∅]> data), ∅. split; [done|].
      rewrite lookup_insert_eq. split; [done|].
      intros s b Hs. destruct (decide (s = src)) as [->|Hne].
      + rewrite lookup_insert_eq in Hs. injection Hs as <-.
        split; [|done]. intros time c Hc. by rewrite lookup_empty in Hc.
      + rewrite lookup_insert_ne in Hs by done.
        by apply (counts_positive_weaken src data Hdata). }
  destruct Hens as (d1 & b1 & -> & Hs1 & Hq1). cbv beta iota.
  case_bool_decide as Hsame.
  - destruct (add_packets_positive src fb (in_packets flow) d1 b1 Hq1 Hs1 Hn)
      as (d2 & -> & _ & Hpos). by intros [= <-].
  - unfold py_float_div. case_decide as Hone; [done|]. run_proc.
    destruct (Z.to_nat (in_packets flow)) as [|n] eqn:Hnat; [lia|].
    cbn [spread_packets]. run_proc.
    destruct (py_float_mod _ _) as [m|e]; [|done].
    destruct (add_packets_positive src
                (py_int (tf + inject_Z 0 * ((tl - tf) / inject_Z (in_packets flow - 1)) - m))
                1 d1 b1 Hq1 Hs1 ltac:(lia))
      as (d2 & -> & Hs2 & Hpos2).
    by apply spread_packets_positive.
Qed.

(** X12: a CountMap in which every source has a bucket and every count
    is at least one is still such a CountMap after a call of
    aggregate_flows that returns, for a flow of at least one packet. *)
Theorem aggregate_flows_keeps_counts_positive (config : Configuration)
    (flow : NfFlow) (data data' : CountMap) :
  counts_positive data →
  1 ≤ in_packets flow →
  aggregate_flows config flow data = (data', Ok ()) →
  counts_positive data'.
Proof. apply aggregate_flows_positive. Qed.

Lemma aggregate_flows_keeps_counts_positive_witness :
  counts_positive
    {[ IPv4Address 3221225984 := {[ 1704067200 := 1; 1704070800 := 1 ]} ]}.
Proof.
  apply (aggregate_flows_keeps_counts_positive default_Configuration
           {| in_packets := 2; dst_port := 53;
              first := utc 2024 1 1 0 59 59; last := utc 2024 1 1 1 0 1;
              src_addr := IPv4Address 3221225991;
              dst_addr := IPv4Address 3405803777 |} ∅).
  - intros src buckets Hl. by rewrite lookup_empty in Hl.
  - simpl. lia.
  - vm_compute. reflexivity.
Defined.

(** ** aggregate_flows: a flow inside one bucket *)

Lemma time_bucket_floor config t :
  0 < aggregation_time config →
  ∃ b, time_bucket config t = Ok b ∧
       b = aggregation_time config * (t / aggregation_time config) ∧
       b mod aggregation_time config = 0 ∧
       b ≤ t < b + aggregation_time config.
Proof.
  intros Hagg. set (a := aggregation_time config) in *.
  exists (t - t mod a). split; [apply time_bucket_Ok; fold a; lia|].
  pose proof (Z.div_mod t a ltac:(lia)) as Hdm.
  pose proof (Z.mod_pos_bound t a Hagg) as Hb.
  split; [lia|]. split; [|lia].
  replace (t - t mod a) with ((t / a) * a) by lia. apply Z.mod_mul. lia.
Qed.

(** X13: with a positive aggregation_time, a flow whose first and last
    second lie in the same interval of that length is added as a whole to
    one bucket: the bucket is the multiple of aggregation_time at or below
    int(first), its count grows by in_packets, and nothing else changes. *)
Theorem aggregate_flows_within_one_bucket (config : Configuration)
    (flow : NfFlow) (data : CountMap) (src : ip_address) :
  0 < aggregation_time config →
  source_key config (src_addr flow) = Ok src →
  py_int (timestamp (first flow)) / aggregation_time config
  = py_int (timestamp (last flow)) / aggregation_time config →
  ∃ bucket,
    bucket mod aggregation_time config = 0 ∧
    bucket ≤ py_int (timestamp (first flow)) < bucket + aggregation_time config ∧
    aggregate_flows config flow data
    = (<[src := <[bucket := default 0 (default ∅ (data !! src) !! bucket)
                            + in_packets flow]> (default ∅ (data !! src))]> data,
       Ok ()).
Proof.
  intros Hagg Hsrc Hdiv.
  destruct (time_bucket_floor config (py_int (timestamp (first flow))) Hagg)
    as (b & Hfb & Hb & Hmod & Hrange).
  destruct (time_bucket_floor config (py_int (timestamp (last flow))) Hagg)
    as (b' & Hlb & Hb' & _ & _).
  assert (b' = b) as -> by (rewrite Hb, Hb'; by rewrite Hdiv).
  exists b. split; [done|]. split; [done|].
  by apply aggregate_flows_single_bucket.
Qed.

Lemma aggregate_flows_within_one_bucket_witness :
  ∃ bucket,
    bucket mod 3600 = 0 ∧
    aggregate_flows default_Configuration
      {| in_packets := 200; dst_port := 53;
         first := utc 2024 1 1 0 30 0; last := utc 2024 1 1 0 30 0;
         src_addr := IPv4Address 3221225991;
         dst_addr := IPv4Address 3405803777 |} ∅
    = ({[ IPv4Address 3221225984 := {[ bucket := 200 ]} ]}, Ok ()).
Proof.
  destruct (aggregate_flows_within_one_bucket default_Configuration
              {| in_packets := 200; dst_port := 53;
                 first := utc 2024 1 1 0 30 0; last := utc 2024 1 1 0 30 0;
                 src_addr := IPv4Address 3221225991;
                 dst_addr := IPv4Address 3405803777 |} ∅
              (IPv4Address 3221225984))
    as (bucket & Hmod & Hrange & Hrun).
  - simpl. lia.
  - vm_compute. reflexivity.
  - vm_compute. reflexivity.
  - exists bucket. split; [exact Hmod|]. exact Hrun.
Defined.

(** ** process_netflow_file *)

Lemma aggregate_all_total config flows :
  Forall (λ flow, 0 ≤ in_packets flow) flows →
  ∀ data data' : CountMap,
  aggregate_all config flows data = (data', Ok ()) →
  total_packets data'
  = total_packets data + foldr Z.add 0 (in_packets <$> flows).
Proof.
  induction 1 as [|flow flows Hn _ IH]; intros data data'.
  - intros [= <-]. simpl. lia.
  - cbn [aggregate_all]. run_proc.
    destruct (aggregate_flows config flow data) as [d1 [[]|e]] eqn:Hrun; [|done].
    intros Hrest. apply IH in Hrest.
    rewrite Hrest, (aggregate_flows_Ok_total _ _ _ _ Hn Hrun).
    rewrite fmap_cons. cbn [foldr]. lia.
Qed.

Lemma process_netflow_file_Ok L W file config flows data :
  nfdump_json L W file = Ok flows →
  process_netflow_file L W file config = Ok data →
  aggregate_all config (stream_filter flows config) ∅ = (data, Ok ()).
Proof.
  intros Hflows. unfold process_netflow_file. rewrite Hflows. simpl.
  destruct (aggregate_all _ _ _) as [d [[]|e]]; [|done]. by intros [= <-].
Qed.

(** X14: the CountMap that process_netflow_file returns for a capture
    file accounts for every packet of the flows that pass stream_filter and
    for nothing else: its counts sum to the sum of their in_packets. *)
Theorem process_netflow_file_total_packets (L : Library) (W : World)
    (file : string) (config : Configuration) (flows : list NfFlow)
    (data : CountMap) :
  nfdump_json L W file = Ok flows →
  Forall (λ flow, 0 ≤ in_packets flow) flows →
  process_netflow_file L W file config = Ok data →
  total_packets data
  = foldr Z.add 0 (in_packets <$> stream_filter flows config).
Proof.
  intros Hflows Hn Hrun.
  pose proof (process_netflow_file_Ok _ _ _ _ _ _ Hflows Hrun) as Hall.
  apply aggregate_all_total in Hall.
  - rewrite Hall, total_packets_empty. lia.
  - unfold stream_filter. rewrite Forall_forall in Hn. apply Forall_forall.
    intros flow Hin. apply list_elem_of_filter in Hin as [_ Hin]. by apply Hn.
Qed.

Lemma process_netflow_file_total_packets_witness :
  total_packets {[ IPv4Address 3221225984 := {[ 1704067200 := 200 ]} ]} = 200.
Proof.
  apply (process_netflow_file_total_packets example_Library mixed_World
           "capture" default_Configuration
           [ {| in_packets := 200; dst_port := 443;
                first := utc 2024 1 1 0 30 0; last := utc 2024 1 1 0 30 0;
                src_addr := IPv4Address 3221225991;
                dst_addr := IPv4Address 3405803777 |};
             {| in_packets := 200; dst_port := 53;
                first := utc 2024 1 1 0 30 0; last := utc 2024 1 1 0 30 0;
                src_addr := IPv4Address 3221225991;
                dst_addr := IPv4Address 3405803777 |} ]).
  - vm_compute. reflexivity.
  - repeat constructor; simpl; lia.
  - vm_compute. reflexivity.
Defined.

(** X15: a capture file none of whose flows goes to port 53 gives the
    empty CountMap; aggregate_flows is not reached, so not even a
    configuration on which it would raise makes the call fail. *)
Theorem process_netflow_file_without_dns (L : Library) (W : World)
    (file : string) (config : Configuration) (flows : list NfFlow) :
  nfdump_json L W file = Ok flows →
  Forall (λ flow, dst_port flow ≠ 53) flows →
  process_netflow_file L W file config = Ok ∅.
Proof.
  intros Hflows Hport. unfold process_netflow_file. rewrite Hflows. simpl.
  replace (stream_filter flows config) with (@nil NfFlow); [done|].
  symmetry. unfold stream_filter. clear Hflows.
  induction Hport as [|flow flows Hp _ IH]; [done|].
  rewrite filter_cons_False by tauto. exact IH.
Qed.

Lemma process_netflow_file_without_dns_witness :
  process_netflow_file example_Library https_World "capture"
    {| destination_addresses := []; aggregation_time := 0;
       ipv4_aggregation := 40; ipv6_aggregation := 48;
       param_w_train := 24; param_steady := 3; param_heavy := 128 |}
  = Ok ∅.
Proof.
  apply (process_netflow_file_without_dns example_Library https_World "capture" _
           [ {| in_packets := 200; dst_port := 443;
                first := utc 2024 1 1 0 30 0; last := utc 2024 1 1 0 30 0;
                src_addr := IPv4Address 3221225991;
                dst_addr := IPv4Address 3405803777 |} ]).
  - vm_compute. reflexivity.
  - repeat constructor. simpl. lia.
Defined.

Lemma aggregate_all_keys config flows :
  ∀ (data : CountMap),
  (∀ k, is_Some (data !! k) → source_key config k = Ok k) →
  ∀ k, is_Some ((aggregate_all config flows data).1 !! k) →
       source_key config k = Ok k.
Proof.
  induction flows as [|flow flows IH]; intros data Hdata; [done|].
  cbn [aggregate_all]. run_proc.
  assert (Hstep : ∀ k, is_Some ((aggregate_flows config flow data).1 !! k) →
                       source_key config k = Ok k).
  { intros k Hk.
    destruct (source_key config (src_addr flow)) as [s|e] eqn:Hsrc.
    - destruct (decide (s = k)) as [->|Hne].
      + by eapply source_key_fixed_point.
      + rewrite aggregate_flows_frame in Hk by (rewrite Hsrc; congruence).
        by apply Hdata.
    - rewrite aggregate_flows_frame in Hk by (rewrite Hsrc; congruence).
      by apply Hdata. }
  destruct (aggregate_flows config flow data) as [d1 [[]|e]]; [|done].
  by apply IH.
Qed.

Lemma aggregate_all_positive config flows :
  Forall (λ flow, 1 ≤ in_packets flow) flows →
  ∀ data data' : CountMap,
  counts_positive data →
  aggregate_all config flows data = (data', Ok ()) →
  counts_positive data'.
Proof.
  induction 1 as [|flow flows Hn _ IH]; intros data data' Hdata.
  - by intros [= <-].
  - cbn [aggregate_all]. run_proc.
    destruct (aggregate_flows config flow data) as [d1 [[]|e]] eqn:Hrun; [|done].
    apply IH. by eapply aggregate_flows_positive.
Qed.

(** X16: in the CountMap that process_netflow_file returns, every key is
    a network address of the configured aggregation (masking it again
    gives the key itself); and when every flow of the file has at least one
    packet, every source has a bucket and every count is at least one. *)
Theorem process_netflow_file_invariants (L : Library) (W : World)
    (file : string) (config : Configuration) (flows : list NfFlow)
    (data : CountMap) :
  nfdump_json L W file = Ok flows →
  process_netflow_file L W file config = Ok data →
  (∀ src, is_Some (data !! src) → source_key config src = Ok src) ∧
  (Forall (λ flow, 1 ≤ in_packets flow) flows → counts_positive data).
Proof.
  intros Hflows Hrun.
  pose proof (process_netflow_file_Ok _ _ _ _ _ _ Hflows Hrun) as Hall.
  split.
  - intros src Hsrc.
    apply (aggregate_all_keys config (stream_filter flows config) ∅).
    + intros k Hk. rewrite lookup_empty in Hk. by destruct Hk.
    + by rewrite Hall.
  - intros Hn. eapply aggregate_all_positive; [| |exact Hall].
    + unfold stream_filter. rewrite Forall_forall in Hn. apply Forall_forall.
      intros flow Hin. apply list_elem_of_filter in Hin as [_ Hin]. by apply Hn.
    + intros src buckets Hl. by rewrite lookup_empty in Hl.
Qed.

Lemma process_netflow_file_invariants_witness :
  (∀ src,
     is_Some (({[ IPv4Address 3221225984 := {[ 1704067200 := 200 ]} ]} : CountMap)
                !! src) →
     source_key default_Configuration src = Ok src) ∧
  (Forall (λ flow, 1 ≤ in_packets flow)
     [ {| in_packets := 200; dst_port := 53;
          first := utc 2024 1 1 0 30 0; last := utc 2024 1 1 0 30 0;
          src_addr := IPv4Address 3221225991;
          dst_addr := IPv4Address 3405803777 |} ] →
   counts_positive {[ IPv4Address 3221225984 := {[ 1704067200 := 200 ]} ]}).
Proof.
  apply (process_netflow_file_invariants example_Library example_World
           "capture" default_Configuration).
  - vm_compute. reflexivity.
  - vm_compute. reflexivity.
Defined.

(** ** build_allowlist: thresholds and window *)

Lemma build_allowlist_selected (data : CountMap) config now :
  aggregation_time config ≠ 0 →
  1 ≤ param_steady config →
  ∃ allowlist,
    build_allowlist data config now = Ok allowlist ∧
    ∀ ip peak, allowlist !! ip = Some peak ↔
      ∃ buckets, data !! ip = Some buckets ∧
        selected config
          (earliest_time config
             (py_int now - py_int now mod aggregation_time config))
          now buckets peak.
Proof.
  intros Hagg Hsteady.
  unfold build_allowlist. rewrite now_bucket_Ok by done. simpl.
  set (nb := py_int now - py_int now mod aggregation_time config).
  destruct (for_each_allowlist_spec config (earliest_time config nb) now
              (map_to_list data) Hsteady (NoDup_fst_map_to_list data) ∅)
    as (al & Hal & Hspec).
  exists al. split; [done|].
  intros ip peak. rewrite Hspec. split.
  - intros [(b & Hb & Hsel)|[_ Hl]]; [|by rewrite lookup_empty in Hl].
    exists b. by apply elem_of_map_to_list in Hb.
  - intros (b & Hb & Hsel). left. exists b.
    split; [by apply elem_of_map_to_list | done].
Qed.

(** X17: raising param_steady or param_heavy never adds an entry to the
    allowlist and never changes the value of one that stays: the allowlist
    under the stricter configuration is contained in the one under the
    laxer configuration. *)
Theorem build_allowlist_monotone (data : CountMap)
    (config config' : Configuration) (now : Q) (allowlist allowlist' : Allowlist) :
  aggregation_time config ≠ 0 →
  1 ≤ param_steady config →
  aggregation_time config' = aggregation_time config →
  param_w_train config' = param_w_train config →
  param_steady config ≤ param_steady config' →
  param_heavy config ≤ param_heavy config' →
  build_allowlist data config now = Ok allowlist →
  build_allowlist data config' now = Ok allowlist' →
  allowlist' ⊆ allowlist.
Proof.
  intros Hagg Hsteady Hagg' Hw Hs Hh Hal Hal'.
  destruct (build_allowlist_selected data config now Hagg Hsteady)
    as (al & Hrun & Hspec).
  destruct (build_allowlist_selected data config' now) as (al' & Hrun' & Hspec');
    [congruence | lia |].
  rewrite Hrun in Hal. injection Hal as <-.
  rewrite Hrun' in Hal'. injection Hal' as <-.
  apply map_subseteq_spec. intros ip peak Hip.
  apply Hspec' in Hip as (b & Hb & Hlen & Hmax & Hheavy).
  apply Hspec. exists b. split; [done|].
  unfold earliest_time in *. rewrite Hagg', Hw in *.
  repeat split; [lia | apply Hmax.. | lia].
Qed.

Lemma build_allowlist_monotone_witness :
  (∅ : Allowlist) ⊆ {[ IPv4Address 3221225984 := 200 ]}.
Proof.
  apply (build_allowlist_monotone
           {[ IPv4Address 3221225984 := recent_buckets ]}
           default_Configuration
           {| destination_addresses := []; aggregation_time := 3600;
              ipv4_aggregation := 24; ipv6_aggregation := 48;
              param_w_train := 24; param_steady := 4; param_heavy := 150 |}
           (1704074400 # 1)).
  - simpl. lia.
  - simpl. lia.
  - reflexivity.
  - reflexivity.
  - simpl. lia.
  - simpl. lia.
  - vm_compute. reflexivity.
  - vm_compute. reflexivity.
Defined.

Lemma selected_ext config e now (b b' : Buckets) peak :
  (∀ time, in_window e now time = true → b !! time = b' !! time) →
  selected config e now b peak → selected config e now b' peak.
Proof.
  intros Hsame (Hlen & [Hin Hub] & Hheavy).
  assert (Hfilter : filter (λ it : Z * Z, in_window e now it.1 = true) b
                  = filter (λ it : Z * Z, in_window e now it.1 = true) b').
  { apply map_eq. intros time. apply option_eq. intros c.
    rewrite !map_lookup_filter_Some. simpl.
    split; intros [Hl Hw]; (split; [|done]);
      [rewrite <- Hsame by done | rewrite Hsame by done]; done. }
  assert (Hmem : ∀ x, x ∈ valid_traffic e now b ↔ x ∈ valid_traffic e now b').
  { intros x. unfold valid_traffic. rewrite !list_elem_of_fmap.
    split; intros ([time c] & -> & Hit); exists (time, c); (split; [done|]);
      apply elem_of_valid_items in Hit as [Hl Hw]; apply elem_of_valid_items;
      (split; [|done]);
      [rewrite <- Hsame by done | rewrite Hsame by done]; done. }
  repeat split.
  - rewrite length_valid_traffic, <- Hfilter, <- length_valid_traffic. done.
  - by apply Hmem.
  - intros x Hx. apply Hub. by apply Hmem.
  - done.
Qed.

Lemma selected_has_bucket config e now (b : Buckets) peak :
  1 ≤ param_steady config →
  selected config e now b peak →
  ∃ time, b !! time = Some peak ∧ in_window e now time = true.
Proof.
  intros Hsteady (_ & [Hin _] & _). unfold valid_traffic in Hin.
  apply list_elem_of_fmap in Hin as ([time c] & -> & Hit).
  apply elem_of_valid_items in Hit. by exists time.
Qed.

Lemma build_allowlist_window_only (data data' : CountMap) config now nb :
  aggregation_time config ≠ 0 →
  1 ≤ param_steady config →
  now_bucket config now = Ok nb →
  (∀ ip time, in_window (earliest_time config nb) now time = true →
              count_at data ip time = count_at data' ip time) →
  build_allowlist data config now = build_allowlist data' config now.
Proof.
  intros Hagg Hsteady Hnb Hsame.
  rewrite now_bucket_Ok in Hnb by done. injection Hnb as <-.
  set (e := earliest_time config _) in *.
  destruct (build_allowlist_selected data config now Hagg Hsteady)
    as (al & -> & Hspec).
  destruct (build_allowlist_selected data' config now Hagg Hsteady)
    as (al' & -> & Hspec').
  fold e in Hspec, Hspec'.
  f_equal. apply map_eq. intros ip. apply option_eq. intros peak.
  rewrite Hspec, Hspec'.
  assert (Hone : ∀ d d' : CountMap,
            (∀ ip time, in_window e now time = true →
                        count_at d ip time = count_at d' ip time) →
            (∃ b, d !! ip = Some b ∧ selected config e now b peak) →
            ∃ b', d' !! ip = Some b' ∧ selected config e now b' peak).
  { intros d d' Hdd (b & Hb & Hsel).
    destruct (selected_has_bucket _ _ _ _ _ Hsteady Hsel) as (t0 & Ht0 & Hw0).
    pose proof (Hdd ip t0 Hw0) as H0. unfold count_at in H0.
    rewrite Hb in H0. simpl in H0. rewrite Ht0 in H0.
    destruct (d' !! ip) as [b'|] eqn:Hb'; [|done].
    exists b'. split; [done|]. eapply selected_ext; [|exact Hsel].
    intros time Hw. specialize (Hdd ip time Hw). unfold count_at in Hdd.
    by rewrite Hb, Hb' in Hdd. }
  split; apply Hone; [done|]. intros ip' time Hw. symmetry. by apply Hsame.
Qed.

(** X18: build_allowlist reads the buckets of the training window only:
    two CountMaps that hold the same counts at every bucket time inside
    [earliest_time, now) give the same allowlist, whatever they hold
    outside. *)
Theorem build_allowlist_reads_window_only (data data' : CountMap)
    (config : Configuration) (now : Q) (nb : Z) :
  aggregation_time config ≠ 0 →
  1 ≤ param_steady config →
  now_bucket config now = Ok nb →
  (∀ ip time, in_window (earliest_time config nb) now time = true →
              count_at data ip time = count_at data' ip time) →
  build_allowlist data config now = build_allowlist data' config now.
Proof. apply build_allowlist_window_only. Qed.

Lemma recent_and_old_buckets_agree ip time :
  in_window (earliest_time default_Configuration 1704074400)
    (1704074400 # 1) time = true →
  count_at {[ IPv4Address 3221225984 := recent_and_old_buckets ]} ip time
  = count_at {[ IPv4Address 3221225984 := recent_buckets ]} ip time.
Proof.
  intros Hw. apply in_window_spec in Hw as [He _].
  unfold earliest_time in He. simpl in He.
  unfold count_at. destruct (decide (ip = IPv4Address 3221225984)) as [->|Hne].
  - rewrite !lookup_singleton_eq. simpl. unfold recent_and_old_buckets.
    rewrite lookup_insert_ne by lia. done.
  - by rewrite !lookup_singleton_ne.
Qed.

Lemma build_allowlist_reads_window_only_witness :
  build_allowlist {[ IPv4Address 3221225984 := recent_and_old_buckets ]}
    default_Configuration (1704074400 # 1)
  = build_allowlist {[ IPv4Address 3221225984 := recent_buckets ]}
    default_Configuration (1704074400 # 1).
Proof.
  apply (build_allowlist_reads_window_only _ _ default_Configuration
           (1704074400 # 1) 1704074400).
  - simpl. lia.
  - simpl. lia.
  - vm_compute. reflexivity.
  - exact recent_and_old_buckets_agree.
Defined.

(** ** main: the files of a run *)

Lemma mapM_result_cons {A B} (f : A → result B) x l :
  mapM f (x :: l) = (y ← f x; k ← mapM f l; Ok (y :: k)).
Proof. reflexivity. Qed.

Lemma mapM_result_Raise {A B} (f : A → result B) (l : list A) x e :
  x ∈ l → f x = Raise e →
  ∃ x' e', x' ∈ l ∧ f x' = Raise e' ∧ mapM f l = Raise e'.
Proof.
  intros Hin Hx. induction l as [|a l IH]; [by apply elem_of_nil in Hin|].
  rewrite mapM_result_cons.
  destruct (f a) as [y|e0] eqn:Ha.
  - apply elem_of_cons in Hin as [->|Hin]; [congruence|].
    destruct (IH Hin) as (x' & e' & Hx' & Hfx' & ->).
    exists x', e'. split; [by apply list_elem_of_further | done].
  - exists a, e0. split; [apply list_elem_of_here | done].
Qed.

Lemma mapM_result_Permutation {A B} (f : A → result B) (l l' : list A) :
  l ≡ₚ l' →
  ∀ k, mapM f l = Ok k → ∃ k', mapM f l' = Ok k' ∧ k ≡ₚ k'.
Proof.
  induction 1 as [|x l l' _ IH|x1 x2 l|l1 l2 l3 _ IH1 _ IH2]; intros k.
  - intros [= <-]. by exists [].
  - rewrite !mapM_result_cons. destruct (f x) as [y|e]; [|done]. simpl.
    destruct (mapM f l) as [k0|e]; [|done]. simpl. intros [= <-].
    destruct (IH k0 eq_refl) as (k' & -> & Hperm). simpl.
    exists (y :: k'). split; [done | by constructor].
  - rewrite !mapM_result_cons.
    destruct (f x1) as [y1|e]; destruct (f x2) as [y2|e']; try done. simpl.
    destruct (mapM f l) as [k0|e]; [|done]. simpl. intros [= <-].
    exists (y1 :: y2 :: k0). split; [done | apply perm_swap].
  - intros Hk. destruct (IH1 k Hk) as (k1 & Hk1 & Hp1).
    destruct (IH2 k1 Hk1) as (k2 & Hk2 & Hp2).
    exists k2. split; [done | by etrans].
Qed.

(** X19: when process_netflow_file raises for one of the files of the
    command line, main ends with the exception of a failing file: nothing is
    printed or written, whatever the other files hold. *)
Theorem main_fails_when_a_file_fails (L : Library) (W : World)
    (cl : CommandLine) (args : Namespace) (cfg : Configuration)
    (file : string) (e : exn) :
  parse_args W cl = Ok args →
  match config args with
  | Some path => load_config W path
  | None => Ok default_Configuration
  end = Ok cfg →
  file ∈ files args →
  process_netflow_file L W file cfg = Raise e →
  ∃ file' e', file' ∈ files args ∧
              process_netflow_file L W file' cfg = Raise e' ∧
              main L W cl = Raise e'.
Proof.
  intros Hargs Hcfg Hin Hfile.
  destruct (mapM_result_Raise (λ file, process_netflow_file L W file cfg)
              (files args) file e Hin Hfile) as (file' & e' & Hin' & Hf' & Hmap).
  exists file', e'. split; [done|]. split; [done|].
  unfold main, main_allowlist. rewrite Hargs. simpl. rewrite Hcfg. simpl.
  by rewrite Hmap.
Qed.

Lemma main_fails_when_a_file_fails_witness :
  ∃ file' e',
    file' ∈ ["nfcapd.202401010000"; "broken"] ∧
    process_netflow_file example_Library broken_file_World file'
      default_Configuration = Raise e' ∧
    main example_Library broken_file_World
      {| arg_config := None; arg_now := Some "2024-01-01T02:00:00";
         arg_output := None;
         arg_files := ["nfcapd.202401010000"; "broken"] |} = Raise e'.
Proof.
  apply (main_fails_when_a_file_fails example_Library broken_file_World
           {| arg_config := None; arg_now := Some "2024-01-01T02:00:00";
              arg_output := None;
              arg_files := ["nfcapd.202401010000"; "broken"] |}
           {| config := None; now := Some "2024-01-01T02:00:00";
              output := None; files := ["nfcapd.202401010000"; "broken"] |}
           default_Configuration "broken" ValueError).
  - vm_compute. reflexivity.
  - reflexivity.
  - apply list_elem_of_further, list_elem_of_here.
  - vm_compute. reflexivity.
Defined.

(** X20: for every order in which the same capture files are named on
    the command line, a run that gets as far as the allowlist computes an
    equal allowlist (the same keys with the same values), and without -o
    it prints the same output.  The order of the rows of the CSV text is
    not covered: a CountMap or an allowlist of the model does not record
    the order in which its keys were entered. *)
Theorem main_independent_of_file_order (L : Library) (W : World)
    (cl cl' : CommandLine) (args : Namespace) (allowlist : Allowlist) :
  arg_config cl' = arg_config cl →
  arg_now cl' = arg_now cl →
  arg_output cl' = arg_output cl →
  arg_files cl ≡ₚ arg_files cl' →
  main_allowlist L W cl = Ok (args, allowlist) →
  (∃ args', main_allowlist L W cl' = Ok (args', allowlist)) ∧
  (arg_output cl = None → main L W cl' = main L W cl).
Proof.
  intros Hc Hn Ho Hperm Hrun0.
  pose proof Hrun0 as Hrun. unfold main_allowlist in Hrun.
  apply bind_Ok in Hrun as (args0 & Hargs & Hrun).
  apply bind_Ok in Hrun as (cfg & Hcfg & Hrun).
  apply bind_Ok in Hrun as (results & Hres & Hrun).
  apply bind_Ok in Hrun as (t & Ht & Hrun).
  apply bind_Ok in Hrun as (al0 & Hal & Hrun).
  injection Hrun as -> ->.
  pose proof (parse_args_Ok _ _ _ Hargs) as (Hne & Hnow & Hout & Hfiles & Hconf).
  assert (Hargs' : parse_args W cl'
            = Ok {| config := arg_config cl; now := arg_now cl';
                    output := arg_output cl'; files := arg_files cl' |}).
  { unfold parse_args in *. rewrite Hc.
    destruct (arg_config cl) as [path|]; simpl in *;
      [destruct (can_open W path); [|done]; simpl in *|];
      (destruct (arg_files cl') eqn:Hf';
       [apply Permutation_nil_r in Hperm; by rewrite Hperm in Hargs | done]). }
  rewrite Hfiles in Hres.
  destruct (mapM_result_Permutation _ _ _ Hperm _ Hres) as (results' & Hres' & Hrp).
  assert (Hrun' : main_allowlist L W cl'
            = Ok ({| config := arg_config cl; now := arg_now cl';
                     output := arg_output cl'; files := arg_files cl' |},
                  allowlist)).
  { unfold main_allowlist. rewrite Hargs'. simpl.
    rewrite <- Hconf, Hcfg. simpl. rewrite Hres'. simpl.
    rewrite <- (foldl_merge_data_Permutation _ _ Hrp).
    rewrite Hn, <- Hnow, Ht. simpl. by rewrite Hal. }
  split; [by eexists|].
  intros Hnone. unfold main. rewrite Hrun', Hrun0.
  change (main_output L W
            {| config := arg_config cl; now := arg_now cl';
               output := arg_output cl'; files := arg_files cl' |} allowlist
          = main_output L W args allowlist).
  unfold main_output. simpl. by rewrite Ho, Hout, Hnone.
Qed.

Lemma main_independent_of_file_order_witness :
  main example_Library two_files_World
    {| arg_config := Some "config.json"; arg_now := Some "2024-01-01T02:00:00";
       arg_output := None; arg_files := ["b.nfcapd"; "a.nfcapd"] |}
  = main example_Library two_files_World
    {| arg_config := Some "config.json"; arg_now := Some "2024-01-01T02:00:00";
       arg_output := None; arg_files := ["a.nfcapd"; "b.nfcapd"] |}.
Proof.
  refine (proj2 (main_independent_of_file_order example_Library two_files_World
                   {| arg_config := Some "config.json";
                      arg_now := Some "2024-01-01T02:00:00";
                      arg_output := None;
                      arg_files := ["a.nfcapd"; "b.nfcapd"] |}
                   {| arg_config := Some "config.json";
                      arg_now := Some "2024-01-01T02:00:00";
                      arg_output := None;
                      arg_files := ["b.nfcapd"; "a.nfcapd"] |}
                   {| config := Some "config.json";
                      now := Some "2024-01-01T02:00:00";
                      output := None; files := ["a.nfcapd"; "b.nfcapd"] |}
                   {[ IPv4Address 3221225984 := 200;
                      IPv4Address 3405803776 := 200 ]}
                   eq_refl eq_refl eq_refl _ _) eq_refl).
  - apply perm_swap.
  - vm_compute. reflexivity.
Defined.

(** ** NfFlow.from_dict *)

Lemma get_int_Ok d key n : get_int d key = Ok n → d !! key = Some (JNum n).
Proof.
  unfold get_int. destruct (d !! key) as [[| |]|]; try done. by intros [= ->].
Qed.

Lemma get_timestamp_Ok L d key1 key2 t :
  get_timestamp L d key1 key2 = Ok t →
  is_Some (dict_get d key1) ∨ is_Some (dict_get d key2).
Proof.
  unfold get_timestamp, get_str.
  destruct (dict_get d key1) as [v1|]; [by left; eexists|].
  destruct (dict_get d key2) as [v2|]; [by right; eexists|].
  done.
Qed.

Lemma optional_ipv4_address_Ok L v r :
  optional_ipv4_address L v = Ok r →
  match v with
  | None | Some JNull => r = None
  | Some _ => ∃ n, r = Some (IPv4Address n)
  end.
Proof.
  destruct v as [[|n|s]|]; simpl.
  - by intros [= <-].
  - case_bool_decide; [|done]. intros [= <-]. eauto.
  - destruct (ipv4_of_string L s); simpl; [|done]. intros [= <-]. eauto.
  - by intros [= <-].
Qed.

Lemma optional_ipv6_address_Ok L v r :
  optional_ipv6_address L v = Ok r →
  match v with
  | None | Some JNull => r = None
  | Some _ => ∃ n, r = Some (IPv6Address n)
  end.
Proof.
  destruct v as [[|n|s]|]; simpl.
  - by intros [= <-].
  - case_bool_decide; [|done]. intros [= <-]. eauto.
  - destruct (ipv6_of_string L s); simpl; [|done]. intros [= <-]. eauto.
  - by intros [= <-].
Qed.

Lemma dict_get_not_null d key : dict_get d key ≠ Some JNull.
Proof. unfold dict_get. by destruct (d !! key) as [[| |]|]. Qed.

(** The address that from_dict picks from the IPv4 and the IPv6 field of
    one side of the flow. *)
Lemma from_dict_address L d key4 key6 r4 r6 a :
  optional_ipv4_address L (dict_get d key4) = Ok r4 →
  optional_ipv6_address L (dict_get d key6) = Ok r6 →
  r4 = Some a ∨ r4 = None ∧ r6 = Some a →
  (is_Some (dict_get d key4) ∨ is_Some (dict_get d key6)) ∧
  (is_Some (dict_get d key4) → r4 = Some a) ∧
  (dict_get d key4 = None → r6 = Some a).
Proof.
  intros H4 H6 Ha.
  apply optional_ipv4_address_Ok in H4. apply optional_ipv6_address_Ok in H6.
  pose proof (dict_get_not_null d key4) as Hn4.
  pose proof (dict_get_not_null d key6) as Hn6.
  destruct (dict_get d key4) as [v4|].
  - assert (∃ n, r4 = Some (IPv4Address n)) as [n ->]
      by (destruct v4; [done | exact H4..]).
    destruct Ha as [[= <-]|[? _]]; [|done]. split; [left; by eexists|].
    split; [done | done].
  - subst r4. destruct (dict_get d key6) as [v6|].
    + assert (∃ n, r6 = Some (IPv6Address n)) as [n ->]
        by (destruct v6; [done | exact H6..]).
      destruct Ha as [?|[_ [= <-]]]; [done|]. split; [right; by eexists|].
      split; [by intros [? ?] | done].
    + subst r6. by destruct Ha as [?|[_ ?]].
Qed.

Lemma from_dict_Ok L d flow :
  from_dict L d = Ok flow →
  is_Some (d !! "in_packets") ∧
  is_Some (d !! "dst_port") ∧
  (is_Some (dict_get d "first") ∨ is_Some (dict_get d "t_first")) ∧
  (is_Some (dict_get d "last") ∨ is_Some (dict_get d "t_last")) ∧
  ((is_Some (dict_get d "src4_addr") ∨ is_Some (dict_get d "src6_addr")) ∧
   (is_Some (dict_get d "src4_addr") →
      optional_ipv4_address L (dict_get d "src4_addr")
        = Ok (Some (src_addr flow))) ∧
   (dict_get d "src4_addr" = None →
      optional_ipv6_address L (dict_get d "src6_addr")
        = Ok (Some (src_addr flow)))) ∧
  ((is_Some (dict_get d "dst4_addr") ∨ is_Some (dict_get d "dst6_addr")) ∧
   (is_Some (dict_get d "dst4_addr") →
      optional_ipv4_address L (dict_get d "dst4_addr")
        = Ok (Some (dst_addr flow))) ∧
   (dict_get d "dst4_addr" = None →
      optional_ipv6_address L (dict_get d "dst6_addr")
        = Ok (Some (dst_addr flow)))).
Proof.
  unfold from_dict. intros H.
  apply bind_Ok in H as (n & Hn & H).
  apply bind_Ok in H as (p & Hp & H).
  apply bind_Ok in H as (t1 & Ht1 & H).
  apply bind_Ok in H as (t2 & Ht2 & H).
  apply bind_Ok in H as (s4 & Hs4 & H).
  apply bind_Ok in H as (d4 & Hd4 & H).
  apply bind_Ok in H as (s6 & Hs6 & H).
  apply bind_Ok in H as (d6 & Hd6 & H).
  apply bind_Ok in H as (src & Hsrc & H).
  apply bind_Ok in H as (dst & Hdst & H).
  injection H as <-. cbn [in_packets dst_port src_addr dst_addr].
  split; [apply get_int_Ok in Hn; by eexists|].
  split; [apply get_int_Ok in Hp; by eexists|].
  split; [by eapply get_timestamp_Ok|]. split; [by eapply get_timestamp_Ok|].
  split.
  - destruct (from_dict_address L d "src4_addr" "src6_addr" s4 s6 src Hs4 Hs6)
      as (Hsome & H4 & H6).
    { destruct s4, s6; try done; injection Hsrc as <-; auto. }
    split; [done|]. split.
    + intros Hp4. by rewrite Hs4, (H4 Hp4).
    + intros Hn4. by rewrite Hs6, (H6 Hn4).
  - destruct (from_dict_address L d "dst4_addr" "dst6_addr" d4 d6 dst Hd4 Hd6)
      as (Hsome & H4 & H6).
    { destruct d4, d6; try done; injection Hdst as <-; auto. }
    split; [done|]. split.
    + intros Hp4. by rewrite Hd4, (H4 Hp4).
    + intros Hn4. by rewrite Hd6, (H6 Hn4).
Qed.

(** X22: whenever from_dict returns a flow, the record holds the keys
    in_packets and dst_port, a first and a last timestamp that is not null
    under the nfdump 1.7 name (first, last) or the nfdump 1.6 name
    (t_first, t_last), and a source and a destination address that is not
    null in the IPv4 or the IPv6 field. *)
Theorem from_dict_needs_every_field (L : Library) (d : gmap string json)
    (flow : NfFlow) :
  from_dict L d = Ok flow →
  is_Some (d !! "in_packets") ∧
  is_Some (d !! "dst_port") ∧
  (is_Some (dict_get d "first") ∨ is_Some (dict_get d "t_first")) ∧
  (is_Some (dict_get d "last") ∨ is_Some (dict_get d "t_last")) ∧
  (is_Some (dict_get d "src4_addr") ∨ is_Some (dict_get d "src6_addr")) ∧
  (is_Some (dict_get d "dst4_addr") ∨ is_Some (dict_get d "dst6_addr")).
Proof.
  intros H. apply from_dict_Ok in H as (Hn & Hp & Hf & Hl & [Hs _] & [Hd _]).
  done.
Qed.

Lemma from_dict_needs_every_field_witness :
  is_Some (scenario_record !! "in_packets") ∧
  is_Some (scenario_record !! "dst_port") ∧
  (is_Some (dict_get scenario_record "first")
   ∨ is_Some (dict_get scenario_record "t_first")) ∧
  (is_Some (dict_get scenario_record "last")
   ∨ is_Some (dict_get scenario_record "t_last")) ∧
  (is_Some (dict_get scenario_record "src4_addr")
   ∨ is_Some (dict_get scenario_record "src6_addr")) ∧
  (is_Some (dict_get scenario_record "dst4_addr")
   ∨ is_Some (dict_get scenario_record "dst6_addr")).
Proof.
  apply (from_dict_needs_every_field example_Library scenario_record
           scenario_flow).
  vm_compute. reflexivity.
Defined.

(** X23: the address that from_dict gives a side of the flow is the
    record's IPv4 address for that side, as IPv4Address reads it, whenever
    the IPv4 field is not null, whether or not the IPv6 field is set as
    well; it is the record's IPv6 address, as IPv6Address reads it, only
    when the IPv4 field is absent or null.  The two sides are decided
    separately. *)
Theorem from_dict_prefers_ipv4 (L : Library) (d : gmap string json)
    (flow : NfFlow) :
  from_dict L d = Ok flow →
  (is_Some (dict_get d "src4_addr") →
     optional_ipv4_address L (dict_get d "src4_addr")
       = Ok (Some (src_addr flow))) ∧
  (dict_get d "src4_addr" = None →
     optional_ipv6_address L (dict_get d "src6_addr")
       = Ok (Some (src_addr flow))) ∧
  (is_Some (dict_get d "dst4_addr") →
     optional_ipv4_address L (dict_get d "dst4_addr")
       = Ok (Some (dst_addr flow))) ∧
  (dict_get d "dst4_addr" = None →
     optional_ipv6_address L (dict_get d "dst6_addr")
       = Ok (Some (dst_addr flow))).
Proof.
  intros H.
  apply from_dict_Ok in H as (_ & _ & _ & _ & (_ & Hs4 & Hs6) & (_ & Hd4 & Hd6)).
  done.
Qed.

Lemma from_dict_prefers_ipv4_witness :
  optional_ipv4_address example_Library
    (dict_get both_families_record "src4_addr")
  = Ok (Some (IPv4Address 3221225991)) ∧
  optional_ipv6_address example_Library
    (dict_get both_families_record "dst6_addr")
  = Ok (Some (IPv6Address 1)).
Proof.
  destruct (from_dict_prefers_ipv4 example_Library both_families_record
              {| in_packets := 200; dst_port := 53;
                 first := utc 2024 1 1 0 30 0; last := utc 2024 1 1 0 30 0;
                 src_addr := IPv4Address 3221225991;
                 dst_addr := IPv6Address 1 |})
    as (Hs4 & _ & _ & Hd6).
  - vm_compute. reflexivity.
  - split.
    + apply Hs4. vm_compute. by eexists.
    + apply Hd6. vm_compute. reflexivity.
Defined.

(** ** JsonWithComments.decode *)

Lemma lines_lf_nonempty (s : string) : lines_lf s ≠ [].
Proof.
  induction s as [|c s IH]; simpl; [done|].
  case_bool_decide; [done|]. by destruct (lines_lf s).
Qed.

Lemma lines_lf_no_line_feed (s : string) : Forall no_line_feed (lines_lf s).
Proof.
  induction s as [|c s IH]; simpl.
  - by constructor.
  - case_bool_decide as Hc.
    + by constructor.
    + pose proof (lines_lf_nonempty s) as Hne.
      destruct (lines_lf s) as [|l ls]; [done|].
      apply Forall_cons in IH as [Hl Hls]. constructor; [|done].
      unfold no_line_feed. simpl. rewrite bool_decide_eq_false_2 by done.
      exact Hl.
Qed.

Lemma join_lf_cons (l : string) (ls : list string) :
  ls ≠ [] → join_lf (l :: ls) = l +:+ String LF (join_lf ls).
Proof. by destruct ls. Qed.

Lemma join_lf_lines_lf (s : string) : join_lf (lines_lf s) = s.
Proof.
  induction s as [|c s IH]; simpl; [done|].
  case_bool_decide as Hc.
  - rewrite join_lf_cons by apply lines_lf_nonempty.
    rewrite IH, append_nil. by subst c.
  - pose proof (lines_lf_nonempty s) as Hne.
    destruct (lines_lf s) as [|l ls]; [done|].
    destruct ls as [|l' ls].
    + simpl in *. by rewrite IH.
    + rewrite join_lf_cons in * by done. rewrite append_cons. by rewrite IH.
Qed.

Lemma lines_lf_one_line (l : string) : no_line_feed l → lines_lf l = [l].
Proof.
  unfold no_line_feed. induction l as [|c l IH]; simpl; [done|].
  intros H. apply andb_true_iff in H as [Hc Hl].
  apply negb_true_iff, bool_decide_eq_false in Hc.
  rewrite bool_decide_eq_false_2 by done. by rewrite IH.
Qed.

Lemma lines_lf_append (l rest : string) :
  no_line_feed l → lines_lf (l +:+ String LF rest) = l :: lines_lf rest.
Proof.
  unfold no_line_feed. induction l as [|c l IH].
  - intros _. rewrite append_nil. reflexivity.
  - simpl. intros H. apply andb_true_iff in H as [Hc Hl].
    apply negb_true_iff, bool_decide_eq_false in Hc.
    rewrite ?append_cons. simpl.
    rewrite bool_decide_eq_false_2 by done. by rewrite IH.
Qed.

Lemma lines_lf_join_lf (ls : list string) :
  ls ≠ [] → Forall no_line_feed ls → lines_lf (join_lf ls) = ls.
Proof.
  induction ls as [|l ls IH]; [done|]. intros _ Hall.
  apply Forall_cons in Hall as [Hl Hls].
  destruct ls as [|l' ls].
  - simpl. by apply lines_lf_one_line.
  - rewrite join_lf_cons by done. rewrite lines_lf_append by done.
    by rewrite IH.
Qed.

Lemma strip_comment_lines_kept (s : string) :
  let kept := filter (λ l, is_comment_line l = false) (lines_lf s) in
  (kept ≠ [] → lines_lf (strip_comment_lines s) = kept) ∧
  (kept = [] → strip_comment_lines s = EmptyString).
Proof.
  cbv zeta. unfold strip_comment_lines. split.
  - intros Hne. apply lines_lf_join_lf; [done|].
    apply Forall_forall. intros l Hl. apply list_elem_of_filter in Hl as [_ Hl].
    pose proof (lines_lf_no_line_feed s) as Hall.
    rewrite Forall_forall in Hall. by apply Hall.
  - by intros ->.
Qed.

(** X25: the text that JsonWithComments.decode passes on consists of the
    lines of the input that are not comment lines (lines whose first
    character after leading spaces begins a double slash), unchanged and in
    their order; when every line is a comment the text is empty. *)
Theorem strip_comment_lines_keeps_other_lines (s : string) :
  let kept := filter (λ l, is_comment_line l = false) (lines_lf s) in
  (kept ≠ [] → lines_lf (strip_comment_lines s) = kept) ∧
  (kept = [] → strip_comment_lines s = EmptyString).
Proof. apply strip_comment_lines_kept. Qed.

Lemma strip_comment_lines_fixed (s : string) :
  Forall (λ l, is_comment_line l = false) (lines_lf s) →
  strip_comment_lines s = s.
Proof.
  intros Hall. unfold strip_comment_lines.
  replace (filter (λ l, is_comment_line l = false) (lines_lf s))
    with (lines_lf s); [apply join_lf_lines_lf|].
  induction Hall as [|l ls Hl _ IH]; [done|].
  rewrite filter_cons_True by done. by rewrite <- IH.
Qed.

Lemma strip_comment_lines_idem (s : string) :
  strip_comment_lines (strip_comment_lines s) = strip_comment_lines s.
Proof.
  apply strip_comment_lines_fixed.
  destruct (strip_comment_lines_kept s) as [Hkept Hnone].
  destruct (filter (λ l, is_comment_line l = false) (lines_lf s))
    as [|l ls] eqn:Hf.
  - rewrite Hnone by done. by repeat constructor.
  - rewrite Hkept by done. rewrite <- Hf.
    apply Forall_forall. intros l' Hl'. by apply list_elem_of_filter in Hl' as [? _].
Qed.

(** X26: JsonWithComments.decode leaves a text without comment lines as
    it is, and stripping is idempotent: decoding an already stripped text
    is decoding the text. *)
Theorem JsonWithComments_decode_idempotent {A} (decode : string → result A)
    (s : string) :
  JsonWithComments_decode decode (strip_comment_lines s)
    = JsonWithComments_decode decode s ∧
  (Forall (λ l, is_comment_line l = false) (lines_lf s) →
   JsonWithComments_decode decode s = decode s).
Proof.
  unfold JsonWithComments_decode. split.
  - by rewrite strip_comment_lines_idem.
  - intros Hall. by rewrite strip_comment_lines_fixed.
Qed.

(** A comment line between two members is dropped; the double slash after
    a member and the one behind a tab stay. *)
Example strip_comment_lines_example :
  strip_comment_lines
    ("{" +:+ String LF ("  // window" +:+ String LF
       ("  param_w_train: 24, // hours" +:+ String LF
         (String "009" "// tab" +:+ String LF "}"))))
  = "{" +:+ String LF
      ("  param_w_train: 24, // hours" +:+ String LF
        (String "009" "// tab" +:+ String LF "}")).
Proof. vm_compute. reflexivity. Qed.

(** ** readuntil *)

Lemma prefix_of_singleton (d : Byte.byte) (chunk : bytes) :
  [d] `prefix_of` chunk ↔ ∃ k, chunk = d :: k.
Proof.
  split.
  - intros [k ->]. by exists k.
  - intros [k ->]. by exists k.
Qed.

Lemma bytes_find_found (d : Byte.byte) (pre post : bytes) :
  d ∉ pre → bytes_find (pre ++ d :: post) [d] = Some (length pre).
Proof.
  induction pre as [|a pre IH]; intros Hd.
  - cbn [app bytes_find]. rewrite bool_decide_eq_true_2; [done|].
    apply prefix_of_singleton. by exists post.
  - apply not_elem_of_cons in Hd as [Hne Hd].
    cbn [app bytes_find]. rewrite bool_decide_eq_false_2.
    + rewrite IH by done. done.
    + rewrite prefix_of_singleton. intros [k [= -> _]]. done.
Qed.

Lemma bytes_find_absent (d : Byte.byte) (chunk : bytes) :
  d ∉ chunk → bytes_find chunk [d] = None.
Proof.
  induction chunk as [|a chunk IH]; intros Hd.
  - cbn [bytes_find]. rewrite bool_decide_eq_false_2; [done|].
    rewrite prefix_of_singleton. by intros [k ?].
  - apply not_elem_of_cons in Hd as [Hne Hd].
    cbn [bytes_find]. rewrite bool_decide_eq_false_2.
    + by rewrite IH.
    + rewrite prefix_of_singleton. intros [k [= -> _]]. done.
Qed.

Lemma readuntil_loop_found (d : Byte.byte) (fuel : nat) :
  ∀ (stringio : bytes) (datalist : list bytes) (pre post : bytes),
  stringio = pre ++ d :: post → d ∉ pre → (length stringio < fuel)%nat →
  ∃ chunk stringio',
    readuntil_loop fuel stringio datalist [d]
      = Some (concat datalist ++ pre ++ [d], chunk, stringio') ∧
    chunk ++ stringio' = post.
Proof.
  induction fuel as [|fuel IH]; intros stringio datalist pre post -> Hd Hfuel;
    [lia|].
  cbn [readuntil_loop]. unfold stringio_read.
  destruct (decide (length pre < 256)%nat) as [Hshort|Hlong].
  - assert (Htake : take 256 (pre ++ d :: post)
                    = pre ++ d :: take (255 - length pre) post).
    { rewrite take_app_ge by lia.
      replace (256 - length pre)%nat with (S (255 - length pre)) by lia.
      done. }
    rewrite Htake, bytes_find_found by done.
    exists (take (255 - length pre) post), (drop 256 (pre ++ d :: post)).
    split.
    + f_equal. f_equal. f_equal.
      rewrite concat_app. cbn [concat]. rewrite app_nil_r. f_equal.
      change (length [d]) with 1%nat.
      rewrite (cons_middle d pre), app_assoc.
      rewrite take_app_le by (rewrite length_app; simpl; lia).
      rewrite take_ge by (rewrite length_app; simpl; lia). done.
      * change (length [d]) with 1%nat.
        rewrite (cons_middle d pre), app_assoc.
        rewrite drop_app_ge by (rewrite length_app; simpl; lia).
        rewrite length_app. simpl.
        replace (length pre + 1 - (length pre + 1))%nat with 0%nat by lia. done.
    + rewrite drop_app_ge by lia.
      replace (256 - length pre)%nat with (S (255 - length pre)) by lia.
      cbn [drop]. apply take_drop.
  - assert (Htake : take 256 (pre ++ d :: post) = take 256 pre)
      by (apply take_app_le; lia).
    assert (Hsplit : pre = take 256 pre ++ drop 256 pre)
      by (by rewrite take_drop).
    assert (Hd' : (d ∉ take 256 pre) ∧ (d ∉ drop 256 pre)).
    { apply not_elem_of_app. by rewrite <- Hsplit. }
    destruct Hd' as [Hd1 Hd2].
    rewrite Htake, bytes_find_absent by done.
    rewrite bool_decide_eq_false_2 by (rewrite length_take; lia).
    rewrite drop_app_le by lia.
    destruct (IH (drop 256 pre ++ d :: post) (datalist ++ [take 256 pre])
                (drop 256 pre) post eq_refl Hd2) as (chunk & s' & -> & Hrest).
    { rewrite length_app in *. rewrite length_drop. simpl in *. lia. }
    exists chunk, s'. split; [|done].
    f_equal. f_equal. f_equal.
    rewrite concat_app. cbn [concat]. rewrite app_nil_r.
    rewrite <- !app_assoc. f_equal. rewrite app_assoc. by rewrite take_drop.
Qed.

Lemma readuntil_loop_eof (d : Byte.byte) (fuel : nat) :
  ∀ (stringio : bytes) (datalist : list bytes),
  d ∉ stringio → (length stringio < fuel)%nat →
  readuntil_loop fuel stringio datalist [d]
  = Some (concat datalist ++ stringio,
          drop (256 * (length stringio / 256)) stringio, []).
Proof.
  induction fuel as [|fuel IH]; intros stringio datalist Hd Hfuel; [lia|].
  cbn [readuntil_loop]. unfold stringio_read.
  assert (Hsplit : stringio = take 256 stringio ++ drop 256 stringio)
    by (by rewrite take_drop).
  assert (Hd' : (d ∉ take 256 stringio) ∧ (d ∉ drop 256 stringio)).
  { apply not_elem_of_app. by rewrite <- Hsplit. }
  destruct Hd' as [Hd1 Hd2].
  rewrite bytes_find_absent by done.
  destruct (decide (length stringio < 256)%nat) as [Hshort|Hlong].
  - rewrite bool_decide_eq_true_2 by (rewrite length_take; lia).
    rewrite take_ge, drop_ge by lia.
    rewrite Nat.div_small, Nat.mul_0_r by done.
    rewrite concat_app. cbn [concat drop]. by rewrite app_nil_r.
  - rewrite bool_decide_eq_false_2 by (rewrite length_take; lia).
    rewrite IH by (rewrite ?length_drop; done || lia).
    rewrite drop_drop, length_drop.
    rewrite concat_app. cbn [concat]. rewrite app_nil_r.
    rewrite <- app_assoc, take_drop.
    replace (256 + 256 * ((length stringio - 256) / 256))%nat
      with (256 * (length stringio / 256))%nat; [done|].
    replace (length stringio) with (1 * 256 + (length stringio - 256))%nat
      at 1 by lia.
    rewrite Nat.div_add_l by lia. lia.
Qed.

Lemma readuntil_found (d : Byte.byte) (stringio chunk pre post : bytes) :
  chunk ++ stringio = pre ++ d :: post → d ∉ pre →
  ∃ chunk' stringio',
    readuntil stringio chunk [d] = Some (pre ++ [d], chunk', stringio') ∧
    chunk' ++ stringio' = post.
Proof.
  intros Heq Hd. unfold readuntil.
  apply app_eq_inv in Heq as [(k & -> & Hk)|(k & -> & ->)].
  - destruct k as [|d' k].
    + simpl in Hk. subst stringio. rewrite app_nil_r.
      rewrite bytes_find_absent by done.
      destruct (readuntil_loop_found d (S (length (d :: post))) (d :: post)
                  [pre] [] post eq_refl ltac:(apply not_elem_of_nil)
                  ltac:(lia)) as (c & s' & -> & Hrest).
      exists c, s'. split; [|done]. cbn [concat]. by rewrite app_nil_r.
    + injection Hk as <- ->. rewrite bytes_find_found by done.
      exists k, stringio. split; [|done].
      change (length [d]) with 1%nat.
      rewrite (cons_middle d pre), app_assoc.
      rewrite take_app_length', drop_app_length'
        by (rewrite length_app; simpl; lia). done.
  - apply not_elem_of_app in Hd as [Hd1 Hd2].
    rewrite bytes_find_absent by done.
    destruct (readuntil_loop_found d (S (length (k ++ d :: post)))
                (k ++ d :: post) [chunk] k post eq_refl Hd2 ltac:(lia))
      as (c & s' & -> & Hrest).
    exists c, s'. split; [|done]. cbn [concat].
    by rewrite app_nil_r, app_assoc.
Qed.

Lemma readuntil_eof (d : Byte.byte) (stringio chunk : bytes) :
  d ∉ chunk ++ stringio →
  readuntil stringio chunk [d]
  = Some (chunk ++ stringio,
          drop (256 * (length stringio / 256)) stringio, []).
Proof.
  intros Hd. apply not_elem_of_app in Hd as [Hd1 Hd2]. unfold readuntil.
  rewrite bytes_find_absent by done.
  rewrite readuntil_loop_eof by (done || lia).
  cbn [concat]. by rewrite app_nil_r.
Qed.

(** X27: when the delimiter, a single byte, occurs in the unprocessed
    chunk followed by the rest of the stream, readuntil returns the bytes up
    to and including its first occurrence, and the new chunk followed by the
    stream as it is left are exactly the bytes after it: nothing is lost,
    repeated or reordered. *)
Theorem readuntil_stops_at_first_delimiter (d : Byte.byte)
    (stringio chunk pre post : bytes) :
  chunk ++ stringio = pre ++ d :: post →
  d ∉ pre →
  ∃ chunk' stringio',
    readuntil stringio chunk [d] = Some (pre ++ [d], chunk', stringio') ∧
    chunk' ++ stringio' = post.
Proof. apply readuntil_found. Qed.

Lemma readuntil_stops_at_first_delimiter_witness :
  ∃ chunk' stringio',
    readuntil [byte_LF; byte_lbrace; byte_rbrace] [byte_comma] [byte_LF]
      = Some ([byte_comma] ++ [byte_LF], chunk', stringio') ∧
    chunk' ++ stringio' = [byte_lbrace; byte_rbrace].
Proof.
  apply (readuntil_stops_at_first_delimiter byte_LF
           [byte_LF; byte_lbrace; byte_rbrace] [byte_comma] [byte_comma]
           [byte_lbrace; byte_rbrace]).
  - reflexivity.
  - apply not_elem_of_cons. split; [done | apply not_elem_of_nil].
Defined.

(** X28: when the delimiter occurs nowhere before the end of the stream,
    readuntil returns all remaining bytes as data and leaves the stream
    empty; the bytes of the last read, the part of the stream after its last
    full block of 256 bytes, are returned a second time as the unprocessed
    chunk. *)
Theorem readuntil_at_end_of_stream (d : Byte.byte) (stringio chunk : bytes) :
  d ∉ chunk ++ stringio →
  readuntil stringio chunk [d]
  = Some (chunk ++ stringio,
          drop (256 * (length stringio / 256)) stringio, []).
Proof. apply readuntil_eof. Qed.

Lemma readuntil_at_end_of_stream_witness :
  readuntil [byte_rbracket; byte_LF] [] [byte_rbrace]
  = Some ([byte_rbracket; byte_LF], [byte_rbracket; byte_LF], []).
Proof.
  apply (readuntil_at_end_of_stream byte_rbrace [byte_rbracket; byte_LF] []).
  apply (bool_decide_unpack _). vm_compute. exact I.
Defined.

(** ** stream_read_json *)

Lemma stream_read_json_loop_items L json_loads closing (e : ending) :
  (∀ fuel f chunk, chunk ++ f = closing → (0 < fuel)%nat →
     stream_read_json_loop fuel L json_loads f chunk = ([], e)) →
  ∀ items flows,
  Forall2 (λ (it : bytes * bytes) flow,
             (skipped_line it.1 ∧ flat_object it.2) ∧
             ∃ d, json_loads it.2 = Ok d ∧ from_dict L d = Ok flow)
          items flows →
  ∀ fuel f chunk,
  chunk ++ f = json_array_layout items closing →
  (length items < fuel)%nat →
  stream_read_json_loop fuel L json_loads f chunk = (flows, e).
Proof.
  intros Hclosing items flows Hitems.
  induction Hitems as [|[line obj] flow items flows Hit _ IH];
    intros fuel f chunk Hlayout Hfuel.
  - apply Hclosing; [done | simpl in Hfuel; lia].
  - destruct Hit as [[Hline Hobj] (d & Hloads & Hflow)]. simpl in Hline, Hobj, Hloads.
    destruct Hline as ([l [-> Hl]] & Hnot_bracket & Hnot_brace).
    destruct Hobj as (body & -> & Hbody).
    destruct fuel as [|fuel]; [simpl in Hfuel; lia|].
    cbn [json_array_layout] in Hlayout.
    rewrite <- !app_assoc in Hlayout. cbn [app] in Hlayout.
    destruct (readuntil_found byte_LF f chunk l _ Hlayout Hl)
      as (chunk1 & f1 & Hline & Hrest1).
    destruct (readuntil_found byte_rbrace f1 chunk1 body _ Hrest1 Hbody)
      as (chunk2 & f2 & Hobj & Hrest2).
    cbn [stream_read_json_loop].
    rewrite Hline. cbv beta iota. rewrite Hnot_bracket, Hnot_brace.
    rewrite Hobj. cbv beta iota zeta.
    cbn [app concat]. rewrite app_nil_r, Hloads, Hflow.
    rewrite (IH fuel f2 chunk2 Hrest2) by (simpl in Hfuel; lia). done.
Qed.

Lemma stream_read_json_loop_closing L json_loads closing :
  bytes_startswith closing [byte_rbracket] = true →
  ∀ fuel f chunk, chunk ++ f = closing → (0 < fuel)%nat →
  stream_read_json_loop fuel L json_loads f chunk = ([], Returned).
Proof.
  intros Hstart fuel f chunk Hcf Hfuel.
  destruct fuel as [|fuel]; [lia|]. cbn [stream_read_json_loop].
  unfold bytes_startswith in Hstart. apply bool_decide_eq_true in Hstart.
  apply prefix_of_singleton in Hstart as [k Hk].
  destruct (decide (byte_LF ∈ closing)) as [Hin|Hnotin].
  - apply list_elem_of_split_l in Hin as (pre & post & Hsplit & Hpre).
    rewrite <- Hcf in Hsplit.
    destruct (readuntil_found byte_LF f chunk pre post Hsplit Hpre)
      as (chunk1 & f1 & -> & _).
    cbv beta iota.
    replace (bytes_startswith (pre ++ [byte_LF]) [byte_rbracket]) with true; [done|].
    symmetry. apply bool_decide_eq_true, prefix_of_singleton.
    rewrite Hcf, Hk in Hsplit. destruct pre as [|b pre].
    + by injection Hsplit.
    + injection Hsplit as <- _. by eexists.
  - rewrite readuntil_eof by (by rewrite Hcf). cbv beta iota.
    replace (bytes_startswith (chunk ++ f) [byte_rbracket]) with true; [done|].
    symmetry. apply bool_decide_eq_true, prefix_of_singleton.
    rewrite Hcf, Hk. by eexists.
Qed.

Lemma stream_read_json_loop_trailing L json_loads line rest e :
  skipped_line line →
  byte_rbrace ∉ rest →
  json_loads rest = Raise e →
  ∀ fuel f chunk, chunk ++ f = line ++ rest → (0 < fuel)%nat →
  stream_read_json_loop fuel L json_loads f chunk = ([], Raised e).
Proof.
  intros ([l [-> Hl]] & Hnot_bracket & Hnot_brace) Hrest Hloads
    fuel f chunk Hcf Hfuel.
  destruct fuel as [|fuel]; [lia|]. cbn [stream_read_json_loop].
  rewrite <- app_assoc in Hcf. cbn [app] in Hcf.
  destruct (readuntil_found byte_LF f chunk l rest Hcf Hl)
    as (chunk1 & f1 & -> & Hrest1).
  cbv beta iota. rewrite Hnot_bracket, Hnot_brace.
  rewrite readuntil_eof by (by rewrite Hrest1). cbv beta iota zeta.
  cbn [app concat]. rewrite app_nil_r, Hrest1, Hloads. done.
Qed.

(** X29: on a stream in which every object holds no nested object and
    comes right after a line of its own that starts with neither "]" nor
    "{" (the "[" line before the first object, the "," line between two
    objects), and in which "]" follows the brace of the last object,
    stream_read_json hands the text of each object to json.loads, yields
    the flows of the decoded objects in their order, and returns. *)
Theorem stream_read_json_yields_every_object (L : Library)
    (json_loads : bytes → result (gmap string json))
    (items : list (bytes * bytes)) (closing : bytes) (flows : list NfFlow)
    (fuel : nat) :
  Forall2 (λ (it : bytes * bytes) flow,
             (skipped_line it.1 ∧ flat_object it.2) ∧
             ∃ d, json_loads it.2 = Ok d ∧ from_dict L d = Ok flow)
          items flows →
  bytes_startswith closing [byte_rbracket] = true →
  (length items < fuel)%nat →
  stream_read_json fuel L json_loads (json_array_layout items closing)
  = (flows, Returned).
Proof.
  intros Hitems Hclosing Hfuel. unfold stream_read_json.
  eapply stream_read_json_loop_items; [|exact Hitems|done|done].
  by apply stream_read_json_loop_closing.
Qed.

(** X30: when the brace of the last object is followed by a line that
    does not start with "]" -- the rest of the line of the brace, as in an
    array whose closing bracket stands on a line of its own, or the "[" line
    of an array without objects -- stream_read_json yields the flows of the
    objects and then hands what is left of the stream to json.loads: it
    ends with the exception that json.loads raises on that text instead of
    returning. *)
Theorem stream_read_json_raises_on_trailing_text (L : Library)
    (json_loads : bytes → result (gmap string json))
    (items : list (bytes * bytes)) (line rest : bytes) (e : exn)
    (flows : list NfFlow) (fuel : nat) :
  Forall2 (λ (it : bytes * bytes) flow,
             (skipped_line it.1 ∧ flat_object it.2) ∧
             ∃ d, json_loads it.2 = Ok d ∧ from_dict L d = Ok flow)
          items flows →
  skipped_line line →
  byte_rbrace ∉ rest →
  json_loads rest = Raise e →
  (length items < fuel)%nat →
  stream_read_json fuel L json_loads (json_array_layout items (line ++ rest))
  = (flows, Raised e).
Proof.
  intros Hitems Hline Hrest Hloads Hfuel. unfold stream_read_json.
  eapply stream_read_json_loop_items; [|exact Hitems|done|done].
  by apply stream_read_json_loop_trailing.
Qed.

Lemma skipped_line_example (b : Byte.byte) :
  b ≠ byte_LF → b ≠ byte_rbracket → b ≠ byte_lbrace →
  skipped_line [b; byte_LF].
Proof.
  intros Hlf Hbracket Hbrace. split; [|split].
  - exists [b]. split; [done|].
    apply not_elem_of_cons. split; [done | apply not_elem_of_nil].
  - apply bool_decide_eq_false. rewrite prefix_of_singleton.
    intros [k [= -> _]]. done.
  - apply bool_decide_eq_false. rewrite prefix_of_singleton.
    intros [k [= -> _]]. done.
Qed.

Lemma two_objects_decoded :
  Forall2 (λ (it : bytes * bytes) flow,
             (skipped_line it.1 ∧ flat_object it.2) ∧
             ∃ d, example_json_loads it.2 = Ok d ∧
                  from_dict example_Library d = Ok flow)
          two_objects [scenario_flow; scenario_flow].
Proof.
  assert (Hobj : flat_object scenario_object).
  { exists (removelast scenario_object). split; [vm_compute; reflexivity|].
    apply (bool_decide_unpack _). vm_compute. exact I. }
  assert (Hdec : ∃ d,
            example_json_loads scenario_object = Ok d ∧
            from_dict example_Library d = Ok scenario_flow).
  { exists scenario_record. split; vm_compute; reflexivity. }
  repeat constructor; try exact Hobj; try exact Hdec;
    apply skipped_line_example; done.
Qed.

Lemma stream_read_json_yields_every_object_witness :
  stream_read_json 3 example_Library example_json_loads
    (json_array_layout two_objects [byte_rbracket; byte_LF])
  = ([scenario_flow; scenario_flow], Returned).
Proof.
  apply (stream_read_json_yields_every_object example_Library
           example_json_loads two_objects [byte_rbracket; byte_LF]).
  - exact two_objects_decoded.
  - vm_compute. reflexivity.
  - simpl. lia.
Defined.

Lemma stream_read_json_raises_on_trailing_text_witness :
  stream_read_json 1 example_Library example_json_loads
    (json_array_layout [] ([byte_lbracket; byte_LF] ++ [byte_rbracket; byte_LF]))
  = ([], Raised ValueError).
Proof.
  apply (stream_read_json_raises_on_trailing_text example_Library
           example_json_loads [] [byte_lbracket; byte_LF]
           [byte_rbracket; byte_LF] ValueError []).
  - constructor.
  - apply skipped_line_example; done.
  - apply (bool_decide_unpack _). vm_compute. exact I.
  - vm_compute. reflexivity.
  - simpl. lia.
Defined.

(** The same two objects with the closing bracket on a line of its own:
    both flows are yielded, then the reader raises. *)
Example stream_read_json_bracket_on_own_line :
  stream_read_json 3 example_Library example_json_loads
    (json_array_layout two_objects [byte_LF; byte_rbracket; byte_LF])
  = ([scenario_flow; scenario_flow], Raised ValueError).
Proof. vm_compute. reflexivity. Qed.
